(** * vue-vapor-metrics: the benchmark script [compare-builds.ts]

    A shallow embedding of [benchmark/scripts/compare-builds.ts] and the
    properties its specification states about it.

    Modelling conventions.
    - A JavaScript string is a [string]: a sequence of code units, here
      restricted to the code units below 256.  The regular expressions of the
      script only distinguish ASCII letters, digits, punctuation and white
      space, so the restriction loses no case distinction of the code.  The
      few literals of the report outside ASCII (the arrows and the dash of
      the trend column) are written as they are in the source and are only
      ever copied to the output.
    - A JavaScript number is a [Z].  Every number of the script is an integer
      (a component of a version, a byte size, a difference of two of them);
      the model is exact for integers of magnitude below 2^53.  What the
      script prints through [toFixed] and [toLocaleString] is a parameter.
    - The source tree is a finite map from paths to file contents, the
      contents being the strings [readFileSync (_, 'utf8')] returns and
      [writeFileSync] takes; an operation that can throw returns an [option].
    - The history file holds what [JSON.stringify] wrote: a collection of
      entries, or nothing that [JSON.parse] accepts.
    - [Array.prototype.sort] is a stable sort; with a consistent comparator
      its result is the unique stable ordering, computed here by insertion. *)

From Stdlib Require Import ZArith Lia Bool Ascii String List.
From Stdlib Require Import Sorting.Sorted Sorting.Permutation.
From stdpp Require Import base option list gmap strings.

Local Open Scope Z_scope.

(* [simpl] unfolds an append whose first argument starts with a character. *)
#[local] Arguments String.append !s1 s2 : simpl nomatch.

(* ================================================================== *)
(** * Strings and the regular-expression pieces the script uses *)
(* ================================================================== *)

Module Str.

(** [\d]: an ASCII decimal digit. *)
Definition is_digit (c : ascii) : bool :=
  let n := nat_of_ascii c in (48 <=? n)%nat && (n <=? 57)%nat.

(** [\s] on code units below 256: TAB, LF, VT, FF, CR, SPACE, NBSP. *)
Definition is_space (c : ascii) : bool :=
  let n := nat_of_ascii c in
  ((9 <=? n)%nat && (n <=? 13)%nat) || (n =? 32)%nat || (n =? 160)%nat.

(** The value of a digit. *)
Definition digit_val (c : ascii) : Z := Z.of_nat (nat_of_ascii c) - 48.

(** The longest prefix of [s] whose characters satisfy [p], and the rest:
    what a greedy [c+] or [c*] consumes when the next piece of the pattern
    cannot start with a character of the class. *)
Fixpoint span (p : ascii -> bool) (s : string) : string * string :=
  match s with
  | EmptyString => (EmptyString, EmptyString)
  | String c r =>
      if p c then let '(a, b) := span p r in (String c a, b)
      else (EmptyString, s)
  end.

Fixpoint all (p : ascii -> bool) (s : string) : bool :=
  match s with
  | EmptyString => true
  | String c r => p c && all p r
  end.

Definition is_empty (s : string) : bool :=
  match s with EmptyString => true | _ => false end.

(** [strip_prefix lit s]: the rest of [s] after the literal [lit], when [s]
    starts with it. *)
Fixpoint strip_prefix (lit s : string) : option string :=
  match lit, s with
  | EmptyString, _ => Some s
  | String a lit', String b s' =>
      if Ascii.eqb a b then strip_prefix lit' s' else None
  | String _ _, EmptyString => None
  end.

(** [c+], greedy, before something that is not in the class. *)
Definition plus (p : ascii -> bool) (s : string) : option (string * string) :=
  let '(a, b) := span p s in
  if is_empty a then None else Some (a, b).

(** [parseInt (s, 10)] on a string that starts with a digit: the number the
    leading run of digits writes, accumulated from the left.  The script
    calls it on captures of [\d+] only, which are such runs.  *)
Fixpoint parseInt_acc (acc : Z) (s : string) : Z :=
  match s with
  | EmptyString => acc
  | String c r =>
      if is_digit c then parseInt_acc (10 * acc + digit_val c) r else acc
  end.

Definition parseInt (s : string) : Z := parseInt_acc 0 s.

(** [array.join (sep)]. *)
Fixpoint join (sep : string) (l : list string) : string :=
  match l with
  | [] => EmptyString
  | [x] => x
  | x :: r => x +:+ sep +:+ join sep r
  end.

End Str.

(* ================================================================== *)
(** * Version management: [parseVersion] and [compareVersions] *)
(* ================================================================== *)

Record ParsedVersion := mkParsed {
  major : Z;
  minor : Z;
  patch : Z;
  prerelease : option string;   (* string | null *)
  prereleaseNum : Z
}.

(** The result of [version.match (re)] when it is not [null]: the capture
    groups 1 to 5, the last two [undefined] when the optional group did not
    take part in the match. *)
Record VersionMatch := mkMatch {
  g1 : string; g2 : string; g3 : string;
  g4 : option string; g5 : option string
}.

(** The alternation [(alpha|beta|rc)], tried in that order. *)
Definition match_tag (s : string) : option (string * string) :=
  match Str.strip_prefix "alpha" s with
  | Some r => Some ("alpha", r)
  | None =>
      match Str.strip_prefix "beta" s with
      | Some r => Some ("beta", r)
      | None =>
          match Str.strip_prefix "rc" s with
          | Some r => Some ("rc", r)
          | None => None
          end
      end
  end.

(** The optional group [(?:-(alpha|beta|rc)\.(\d+))?] followed by [$]: the
    group is tried first; when it fails the empty alternative needs the end
    of the input at once. *)
Definition match_suffix (s : string) : option (option string * option string) :=
  let with_group :=
    r1 ← Str.strip_prefix "-" s;
    '(t, r2) ← match_tag r1;
    r3 ← Str.strip_prefix "." r2;
    '(n, r4) ← Str.plus Str.is_digit r3;
    if Str.is_empty r4 then Some (Some t, Some n) else None in
  match with_group with
  | Some m => Some m
  | None => if Str.is_empty s then Some (None, None) else None
  end.

(** [/^(\d+)\.(\d+)\.(\d+)(?:-(alpha|beta|rc)\.(\d+))?$/].  Each [\d+] is
    greedy and is followed by a character that is not a digit, so the only
    split that can succeed is the longest run of digits. *)
Definition match_version (s : string) : option VersionMatch :=
  '(d1, r1) ← Str.plus Str.is_digit s;
  r2 ← Str.strip_prefix "." r1;
  '(d2, r3) ← Str.plus Str.is_digit r2;
  r4 ← Str.strip_prefix "." r3;
  '(d3, r5) ← Str.plus Str.is_digit r4;
  '(t, n) ← match_suffix r5;
  Some (mkMatch d1 d2 d3 t n).

(** Truthiness of [string | undefined]: a non-empty string. *)
Definition truthy (o : option string) : bool :=
  match o with
  | Some s => negb (Str.is_empty s)
  | None => false
  end.

Definition sentinel : ParsedVersion := mkParsed 0 0 0 None 0.

Definition parseVersion (version : string) : ParsedVersion :=
  match match_version version with
  | None => sentinel
  | Some m =>
      {| major := Str.parseInt (g1 m);
         minor := Str.parseInt (g2 m);
         patch := Str.parseInt (g3 m);
         prerelease := if truthy (g4 m) then g4 m else None;
         prereleaseNum :=
           match g5 m with
           | Some n => if truthy (g5 m) then Str.parseInt n else 0
           | None => 0
           end |}
  end.

(** [prereleaseOrder[tag] || 0] for the object [{ alpha: 1, beta: 2, rc: 3 }].
    The tags [parseVersion] returns are these three. *)
Definition prereleaseOrder (tag : string) : Z :=
  if String.eqb tag "alpha" then 1
  else if String.eqb tag "beta" then 2
  else if String.eqb tag "rc" then 3
  else 0.

(** [x === null] for a [string | null]. *)
Definition is_null (x : option string) : bool :=
  match x with None => true | Some _ => false end.

Definition compareVersions (a b : string) : Z :=
  let vA := parseVersion a in
  let vB := parseVersion b in
  (* Compare major.minor.patch *)
  if negb (major vA =? major vB) then major vA - major vB
  else if negb (minor vA =? minor vB) then minor vA - minor vB
  else if negb (patch vA =? patch vB) then patch vA - patch vB
  (* If one has prerelease and the other doesn't, stable version is greater *)
  else if is_null (prerelease vA) && negb (is_null (prerelease vB)) then 1
  else if negb (is_null (prerelease vA)) && is_null (prerelease vB) then -1
  else
    (* Both have prereleases, compare them *)
    match prerelease vA, prerelease vB with
    | Some pA, Some pB =>
        let orderA := prereleaseOrder pA in
        let orderB := prereleaseOrder pB in
        if negb (orderA =? orderB) then orderA - orderB
        else prereleaseNum vA - prereleaseNum vB
    | _, _ => 0
    end.

(* ================================================================== *)
(** * What a version string is, stated without the matcher *)
(* ================================================================== *)

(** A non-empty string of decimal digits. *)
Definition digit_string (d : string) : Prop :=
  d <> EmptyString /\ Str.all Str.is_digit d = true.

(** The number a digit string writes, by the weight of each position. *)
Fixpoint decimal (d : string) : Z :=
  match d with
  | EmptyString => 0
  | String c r => Str.digit_val c * 10 ^ Z.of_nat (String.length r) + decimal r
  end.

Inductive Tag := alpha | beta | rc.

Definition tag_text (t : Tag) : string :=
  match t with alpha => "alpha" | beta => "beta" | rc => "rc" end.

(** The rank the specification gives the tags: alpha < beta < rc. *)
Definition tag_rank (t : Tag) : Z :=
  match t with alpha => 1 | beta => 2 | rc => 3 end.

(** A version as the specification reads it. *)
Record SemVer := mkSemVer {
  sv_major : Z;
  sv_minor : Z;
  sv_patch : Z;
  sv_pre : option (Tag * Z)
}.

(** [writes s v]: the string [s] has the shape
    MAJOR.MINOR.PATCH or MAJOR.MINOR.PATCH-tag.NUMBER and writes [v]. *)
Inductive writes : string -> SemVer -> Prop :=
| writes_stable d1 d2 d3 :
    digit_string d1 -> digit_string d2 -> digit_string d3 ->
    writes (d1 +:+ "." +:+ d2 +:+ "." +:+ d3)
           (mkSemVer (decimal d1) (decimal d2) (decimal d3) None)
| writes_pre d1 d2 d3 t d5 :
    digit_string d1 -> digit_string d2 -> digit_string d3 ->
    digit_string d5 ->
    writes (d1 +:+ "." +:+ d2 +:+ "." +:+ d3 +:+ "-" +:+ tag_text t +:+ "." +:+ d5)
           (mkSemVer (decimal d1) (decimal d2) (decimal d3)
                     (Some (t, decimal d5))).

Definition matches_pattern (s : string) : Prop := exists v, writes s v.

(** The record [parseVersion] builds for a version the specification reads
    as [v]. *)
Definition parsed_of (v : SemVer) : ParsedVersion :=
  {| major := sv_major v; minor := sv_minor v; patch := sv_patch v;
     prerelease := (fun p => tag_text (fst p)) <$> sv_pre v;
     prereleaseNum := from_option snd 0 (sv_pre v) |}.

(** The order of the specification: major, then minor, then patch; then a
    version without a tag above one with a tag; then the rank of the tag;
    then the prerelease number. *)
Definition pre_order_spec (p q : option (Tag * Z)) : comparison :=
  match p, q with
  | None, None => Eq
  | None, Some _ => Gt
  | Some _, None => Lt
  | Some (t, n), Some (u, m) =>
      match tag_rank t ?= tag_rank u with
      | Eq => n ?= m
      | c => c
      end
  end.

Definition version_order_spec (v w : SemVer) : comparison :=
  match sv_major v ?= sv_major w with
  | Eq =>
      match sv_minor v ?= sv_minor w with
      | Eq =>
          match sv_patch v ?= sv_patch w with
          | Eq => pre_order_spec (sv_pre v) (sv_pre w)
          | c => c
          end
      | c => c
      end
  | c => c
  end.

(** The rest of the input does not start with a character of the class. *)
Definition stops (p : ascii -> bool) (r : string) : Prop :=
  match r with
  | EmptyString => True
  | String c _ => p c = false
  end.

(* ================================================================== *)
(** * Benchmark entries and the history store *)
(* ================================================================== *)

Inductive Mode := benchmark | inspect.

#[global] Instance Mode_eq_dec : EqDecision Mode.
Proof. solve_decision. Defined.

Record Sizes := mkSizes { raw : Z; gzipped : Z }.

Record BenchmarkEntry := mkEntry {
  timestamp : string;
  mode : Mode;
  vapor : Sizes;
  classic : Sizes;
  delta : Sizes;
  vueVersion : string
}.

(** What the script has done to the files it owns, in order. *)
Inductive Event :=
| HistoryWritten (entry : BenchmarkEntry)
| ReportWritten (markdown : string).

(** The part of the disk [writeReport] works on.  [historyFile] is the
    parsed content of [build-history.json], [None] when the file is missing
    or is not JSON; [vueDependency] is [dependencies.vue] of [package.json],
    [None] when reading it throws. *)
Record World := mkWorld {
  historyFile : option (list BenchmarkEntry);
  reportFile : option string;
  vueDependency : option string;
  events : list Event
}.

Definition TREND_THRESHOLD_BYTES : Z := 100.
Definition HISTORY_DISPLAY_LIMIT : nat := 10.

(** [readHistory]: the stored collection, empty when reading throws. *)
Definition readHistory (w : World) : list BenchmarkEntry :=
  match historyFile w with
  | Some benchmarks => benchmarks
  | None => []
  end.

(** [Array.prototype.sort (cmp)]: [x] goes before the first element it does
    not compare above, so elements that compare equal keep their order. *)
Fixpoint sort_insert {A} (cmp : A -> A -> Z) (x : A) (l : list A) : list A :=
  match l with
  | [] => [x]
  | y :: r => if cmp x y <=? 0 then x :: y :: r else y :: sort_insert cmp x r
  end.

Definition sort {A} (cmp : A -> A -> Z) (l : list A) : list A :=
  foldr (sort_insert cmp) [] l.

Definition writeHistory (entry : BenchmarkEntry) (w : World) : World :=
  let history := readHistory w in
  (* Remove all existing entries with this vueVersion *)
  let history := filter (fun b => vueVersion b <> vueVersion entry) history in
  (* Add the new entry *)
  let history := history ++ [entry] in
  (* Sort by semantic version *)
  let history :=
    sort (fun a b => compareVersions (vueVersion a) (vueVersion b)) history in
  {| historyFile := Some history;
     reportFile := reportFile w;
     vueDependency := vueDependency w;
     events := events w ++ [HistoryWritten entry] |}.

(** [s.replace (/[\^~]/g, '')]. *)
Fixpoint strip_range_marks (s : string) : string :=
  match s with
  | EmptyString => EmptyString
  | String c r =>
      if Ascii.eqb c "^" || Ascii.eqb c "~" then strip_range_marks r
      else String c (strip_range_marks r)
  end.

Definition getVueVersion (w : World) : string :=
  match vueDependency w with
  | Some v => strip_range_marks v
  | None => "unknown"
  end.

(** ** Sequences of writes *)

(** The store after the writes [entries], in order. *)
Definition writeAll (entries : list BenchmarkEntry) (w : World) : World :=
  foldl (fun w entry => writeHistory entry w) w entries.

(** The last entry of [entries] that carries the version [v]. *)
Definition latest (v : string) (entries : list BenchmarkEntry)
    : option BenchmarkEntry :=
  last (filter (fun b => vueVersion b = v) entries).

(** The order of the stored collection. *)
Definition version_le (a b : BenchmarkEntry) : Prop :=
  compareVersions (vueVersion a) (vueVersion b) <= 0.

(* ================================================================== *)
(** * Report generation *)
(* ================================================================== *)

(** [array.slice (-n)]: the last [n] elements, all of them when there are
    fewer. *)
Definition slice_last {A} (n : nat) (l : list A) : list A :=
  drop (length l - n) l.

Section Report.

(** The renderings that depend on the locale or on binary floating point:
    [(num / den).toFixed (digits)], [n.toLocaleString ()],
    [new Date (t).toLocaleString ()], [new Date (t).toLocaleDateString ()]. *)
Variable toFixed : Z -> Z -> nat -> string.
Variable numToLocaleString : Z -> string.
Variable dateToLocaleString : string -> string.
Variable dateToLocaleDateString : string -> string.

Definition formatKB (bytes : Z) : string := toFixed bytes 1024 1 +:+ " KB".

(** The entries of the history table: benchmark runs only, the last
    [HISTORY_DISPLAY_LIMIT] of them, newest first. *)
Definition recentBenchmarks (history : list BenchmarkEntry) : list BenchmarkEntry :=
  reverse (slice_last HISTORY_DISPLAY_LIMIT
             (filter (fun b => mode b = benchmark) history)).

(** The trend cell of row [idx]; [None] when the script would throw, reading
    a field of [recentBenchmarks[idx + 1]] that is [undefined]. *)
Definition trendAt (recent : list BenchmarkEntry) (idx : nat)
    (entry : BenchmarkEntry) : option string :=
  if Z.of_nat idx <? Z.of_nat (length recent) - 1 then
    prev ← recent !! (idx + 1)%nat;
    let change := gzipped (vapor entry) - gzipped (vapor prev) in
    if change <? - TREND_THRESHOLD_BYTES then Some "↓ Improving"
    else if change >? TREND_THRESHOLD_BYTES then Some "↑ Regressing"
    else Some "→ Stable"
  else Some "—".

(** The row with its trend cell filled in. *)
Definition rowText (entry : BenchmarkEntry) (trend : string) : string :=
  let date := dateToLocaleDateString (timestamp entry) in
  let vaporGzip := formatKB (gzipped (vapor entry)) in
  let classicGzip := formatKB (gzipped (classic entry)) in
  let entryDelta := gzipped (delta entry) in
  let deltaStr :=
    if entryDelta >? 0 then "+" +:+ formatKB entryDelta
    else formatKB entryDelta in
  "| " +:+ date +:+ " | " +:+ vueVersion entry +:+ " | " +:+ vaporGzip
  +:+ " | " +:+ classicGzip +:+ " | " +:+ deltaStr +:+ " | " +:+ trend +:+ " |".

Definition historyRow (recent : list BenchmarkEntry) (idx : nat)
    (entry : BenchmarkEntry) : option string :=
  trend ← trendAt recent idx entry;
  Some (rowText entry trend).

(** The lines [recentBenchmarks.forEach] pushes. *)
Definition historyRows (recent : list BenchmarkEntry) : option (list string) :=
  mapM id (imap (historyRow recent) recent).

Definition summaryLines (current : BenchmarkEntry) : list string :=
  let timestamp := dateToLocaleString (timestamp current) in
  let delta := gzipped (delta current) in
  let deltaLabel :=
    if delta =? 0 then "0 KB (equal)"
    else (if delta >? 0 then "+" else EmptyString)
         +:+ formatKB (Z.abs delta)
         +:+ " (" +:+ (if delta >? 0 then "Vapor larger" else "Vapor smaller")
         +:+ ")" in
  [ "# Build Benchmark Report";
    EmptyString;
    "**Generated**: " +:+ timestamp;
    "**Vue Version**: " +:+ vueVersion current;
    "**Mode**: " +:+ (match mode current with
                      | inspect => "Inspection (readable)"
                      | benchmark => "Production benchmark"
                      end);
    EmptyString;
    "## Current Build";
    EmptyString;
    "| Build | Raw Size | Gzipped | Compression Ratio |";
    "|-------|----------|---------|-------------------|";
    "| Vapor | " +:+ formatKB (raw (vapor current)) +:+ " ("
      +:+ numToLocaleString (raw (vapor current)) +:+ " bytes) | "
      +:+ formatKB (gzipped (vapor current)) +:+ " ("
      +:+ numToLocaleString (gzipped (vapor current)) +:+ " bytes) | "
      +:+ toFixed (raw (vapor current)) (gzipped (vapor current)) 2 +:+ "x |";
    "| Classic | " +:+ formatKB (raw (classic current)) +:+ " ("
      +:+ numToLocaleString (raw (classic current)) +:+ " bytes) | "
      +:+ formatKB (gzipped (classic current)) +:+ " ("
      +:+ numToLocaleString (gzipped (classic current)) +:+ " bytes) | "
      +:+ toFixed (raw (classic current)) (gzipped (classic current)) 2 +:+ "x |";
    EmptyString;
    "**Delta (Vapor - Classic)**: " +:+ deltaLabel ].

Definition tableHeader : list string :=
  [ "| Date | Vue Version | Vapor (gzipped) | Classic (gzipped) | Delta | Trend |";
    "|------|-------------|-----------------|-------------------|-------|-------|" ].

Definition commandLines : list string :=
  [ EmptyString;
    "## Commands";
    EmptyString;
    "```bash";
    "npm run benchmark         # Run production benchmark";
    "npm run benchmark:inspect # Generate readable build for inspection";
    "```";
    EmptyString ].

(** The lines of the history section. *)
Definition historyLines (current : BenchmarkEntry)
    (history : list BenchmarkEntry) : option (list string) :=
  if bool_decide (mode current <> inspect) && (0 <? length history)%nat then
    let recent := recentBenchmarks history in
    if (0 <? length recent)%nat then
      rows ← historyRows recent;
      Some ([EmptyString; "## Recent History"; EmptyString]
            ++ tableHeader ++ rows)
    else Some [EmptyString; "## Recent History"; EmptyString]
  else Some [].

Definition generateMarkdownReport (current : BenchmarkEntry)
    (history : list BenchmarkEntry) : option string :=
  section ← historyLines current history;
  Some (Str.join (String "010" EmptyString)
          (summaryLines current ++ section ++ commandLines)).

(** [writeReport]; [isInspectMode] is the command-line flag and [now] is
    [new Date ().toISOString ()].  [None] when generating the report
    throws. *)
Definition writeReport (isInspectMode : bool) (now : string)
    (vaporSize classicSize vaporGzip classicGzip : Z) (w : World)
    : option World :=
  let entry :=
    {| timestamp := now;
       mode := if isInspectMode then inspect else benchmark;
       vapor := {| raw := vaporSize; gzipped := vaporGzip |};
       classic := {| raw := classicSize; gzipped := classicGzip |};
       delta := {| raw := vaporSize - classicSize;
                   gzipped := vaporGzip - classicGzip |};
       vueVersion := getVueVersion w |} in
  (* Only save to history if benchmarking (not inspecting) *)
  let w1 := if negb isInspectMode then writeHistory entry w else w in
  markdown ← generateMarkdownReport entry (readHistory w1);
  Some {| historyFile := historyFile w1;
          reportFile := Some markdown;
          vueDependency := vueDependency w1;
          events := events w1 ++ [ReportWritten markdown] |}.

End Report.

(** ** The trend column, as the specification words it *)

(** A decrease by more than the threshold is an improvement, an increase by
    more than the threshold a regression, anything else is stable. *)
Definition trend_spec (change : Z) : string :=
  if decide (change < - 100) then "↓ Improving"
  else if decide (100 < change) then "↑ Regressing"
  else "→ Stable".

(** The trend of every displayed entry against the next older displayed
    one; the oldest displayed entry has none. *)
Fixpoint trends_spec (shown : list BenchmarkEntry) : list string :=
  match shown with
  | [] => []
  | entry :: older =>
      match older with
      | [] => "—"
      | prev :: _ => trend_spec (gzipped (vapor entry) - gzipped (vapor prev))
      end :: trends_spec older
  end.

(* ================================================================== *)
(** * Source transformation *)
(* ================================================================== *)

(** [s.replace (re, f)] for a regular expression without the [g] flag: the
    match is tried at every position from the left; the first one that
    succeeds is replaced by [f] of the matched text.  [m s] is the match of
    the expression at the start of [s]: the matched text and what follows. *)
Fixpoint replace_first (m : string -> option (string * string))
    (f : string -> string) (s : string) : string :=
  match m s with
  | Some (matched, rest) => f matched +:+ rest
  | None =>
      match s with
      | EmptyString => EmptyString
      | String c r => String c (replace_first m f r)
      end
  end.

Definition not_gt (c : ascii) : bool := negb (Ascii.eqb c ">").

(** [/<script\s+setup[^>]*?>/] at the start of [s].  The greedy [\s+] is
    followed by the letter s, so it takes the whole run of white space; the
    lazy [[^>]*?] is followed by [>], so it stops at the first [>]. *)
Definition match_script_setup (s : string) : option (string * string) :=
  r1 ← Str.strip_prefix "<script" s;
  '(ws, r2) ← Str.plus Str.is_space r1;
  r3 ← Str.strip_prefix "setup" r2;
  let '(attrs, r4) := Str.span not_gt r3 in
  r5 ← Str.strip_prefix ">" r4;
  Some ("<script" +:+ ws +:+ "setup" +:+ attrs +:+ ">", r5).

(** The lookahead [(?=\s|>)]. *)
Definition before_space_or_gt (s : string) : bool :=
  match s with
  | EmptyString => false
  | String c _ => Str.is_space c || Ascii.eqb c ">"
  end.

(** [/\s+vapor(?=\s|>)/] at the start of [s]. *)
Definition match_vapor (s : string) : option (string * string) :=
  '(ws, r1) ← Str.plus Str.is_space s;
  r2 ← Str.strip_prefix "vapor" r1;
  if before_space_or_gt r2 then Some (ws +:+ "vapor", r2) else None.

Definition stripVaporAttribute (source : string) : string :=
  replace_first match_script_setup
    (fun matched => replace_first match_vapor (fun _ => EmptyString) matched)
    source.

(** The file system: relative path to content. *)
Abbreviation FS := (gmap string string).

Definition trackedFiles : list string :=
  [ "example/src/main.ts";
    "example/src/App.vue";
    "example/src/components/HelloWorld.vue" ].

(** [readFileSync] throws on a missing file. *)
Definition read (fs : FS) (relPath : string) : option string := fs !! relPath.

Definition write (relPath content : string) (fs : FS) : FS :=
  <[relPath := content]> fs.

(** [Map.prototype.set]: a [Map] keeps its keys in insertion order and a key
    that is set again keeps its place. *)
Fixpoint map_set (k v : string) (m : list (string * string))
    : list (string * string) :=
  match m with
  | [] => [(k, v)]
  | (k', v') :: r =>
      if String.eqb k' k then (k, v) :: r else (k', v') :: map_set k v r
  end.

(** The loop that fills [originals] when the module is loaded. *)
Definition captureOriginals (fs : FS) : option (list (string * string)) :=
  foldl (fun acc rel =>
           originals ← acc;
           content ← read fs rel;
           Some (map_set rel content originals))
        (Some []) trackedFiles.

Definition classicMain : string :=
  Str.join (String "010" EmptyString)
    [ "import './style.css'";
      "import { createApp } from 'vue'";
      "import App from './App.vue'";
      EmptyString;
      "// Classic Vue runtime build used for comparisons.";
      "createApp(App).mount('#app')";
      EmptyString ].

Definition applyClassicTransforms (fs : FS) : option FS :=
  let fs := write "example/src/main.ts" classicMain fs in
  foldl (fun acc file =>
           fs ← acc;
           content ← read fs file;
           Some (write file (stripVaporAttribute content) fs))
        (Some fs)
        [ "example/src/App.vue"; "example/src/components/HelloWorld.vue" ].

Definition restoreSources (originals : list (string * string)) (fs : FS) : FS :=
  foldl (fun fs '(file, content) => write file content fs) fs originals.

(** ** The shapes the two expressions of [stripVaporAttribute] look for *)

Definition space_run (ws : string) : Prop :=
  ws <> EmptyString /\ Str.all Str.is_space ws = true.

(** An opening tag [<script], white space, [setup], anything up to the
    first [>]. *)
Definition script_setup_tag (tag : string) : Prop :=
  exists ws attrs,
    space_run ws /\ Str.all not_gt attrs = true /\
    tag = "<script" +:+ ws +:+ "setup" +:+ attrs +:+ ">".

(** [tag] occurs in [s] after [pre] and before [post]. *)
Definition tag_at (s pre tag post : string) : Prop :=
  s = pre +:+ tag +:+ post /\ script_setup_tag tag.

(** The attribute token: white space and the word vapor, before white space
    or [>]. *)
Definition vapor_token (tok next : string) : Prop :=
  exists ws, space_run ws /\ tok = ws +:+ "vapor" /\
             before_space_or_gt next = true.

(** [tok] occurs in [tag] after [t1] and before [t2]. *)
Definition token_at (tag t1 tok t2 : string) : Prop :=
  tag = t1 +:+ tok +:+ t2 /\ vapor_token tok t2.

(* ================================================================== *)
(** * Sample data *)
(* ================================================================== *)

(** A benchmark entry of version [v] whose Vapor build gzips to [g] bytes. *)
Definition sample_entry (v : string) (g : Z) : BenchmarkEntry :=
  {| timestamp := "2025-01-01T00:00:00.000Z";
     mode := benchmark;
     vapor := {| raw := 58000; gzipped := g |};
     classic := {| raw := 65000; gzipped := 26000 |};
     delta := {| raw := -7000; gzipped := g - 26000 |};
     vueVersion := v |}.

Definition sample_history : list BenchmarkEntry :=
  [ sample_entry "3.6.0-alpha.1" 21500;
    sample_entry "3.6.0-alpha.2" 21000;
    sample_entry "3.6.0-alpha.3" 21050 ].

(** Stand-ins for the renderings of the platform. *)
Definition sample_toFixed (num den : Z) (digits : nat) : string := "0.0".
Definition sample_numToString (n : Z) : string := "0".
Definition sample_dateToString (t : string) : string := t.

(** A source tree with the three tracked files. *)
Definition sample_fs : FS :=
  <["example/src/main.ts" := "createVaporApp(App).mount('#app')"]>
    (<["example/src/App.vue" := "<script setup vapor>import './a'</script>"]>
       (<["example/src/components/HelloWorld.vue" := "<template><p/></template>"]>
          ∅)).

(* ================================================================== *)
(** * Size calculation *)
(* ================================================================== *)

(** What [readdirSync (dir, { withFileTypes: true })] lists: a regular file
    with its bytes, a directory with its entries, or something that is
    neither (a link, a socket). *)
#[local] Unset Elimination Schemes.
Inductive Node :=
| File (data : string)
| Directory (entries : list (string * Node))
| Other.
#[local] Set Elimination Schemes.

Abbreviation Tree := (list (string * Node)).

(** What one entry adds to the total of [directorySize]: a directory the
    total of the recursive call, a file its [statSync (_).size], anything
    else nothing. *)
Fixpoint entrySize (entry : Node) : Z :=
  match entry with
  | Directory entries =>
      foldl (fun total e => total + entrySize (snd e)) 0 entries
  | File data => Z.of_nat (String.length data)
  | Other => 0
  end.

Definition directorySize (dir : Tree) : Z :=
  foldl (fun total e => total + entrySize (snd e)) 0 dir.

Section Gzip.

(** [gzipSync (data).length]. *)
Variable gzipLength : string -> Z.

Fixpoint entryGzipSize (entry : Node) : Z :=
  match entry with
  | Directory entries =>
      foldl (fun total e => total + entryGzipSize (snd e)) 0 entries
  | File data => gzipLength data
  | Other => 0
  end.

Definition gzipDirectorySize (dir : Tree) : Z :=
  foldl (fun total e => total + entryGzipSize (snd e)) 0 dir.

End Gzip.

(** The regular files of a tree, in the order the walk meets them. *)
Fixpoint filesOfEntry (entry : Node) : list string :=
  match entry with
  | Directory entries => concat (map (fun e => filesOfEntry (snd e)) entries)
  | File data => [data]
  | Other => []
  end.

Definition filesOf (dir : Tree) : list string :=
  concat (map (fun e => filesOfEntry (snd e)) dir).

Definition sumZ (l : list Z) : Z := foldr Z.add 0 l.

#[local] Arguments sumZ : simpl never.

(* ================================================================== *)
(** * The run of the script *)
(* ================================================================== *)

Module Paths.
Definition dist : string := "dist".
Definition artifacts : string := "benchmark/artifacts".
Definition vapor : string := "benchmark/artifacts/vapor".
Definition classic : string := "benchmark/artifacts/classic".
End Paths.

(** The disk: the source tree, the output directories by path, and the
    files of the report. *)
Record Disk := mkDisk {
  sources : FS;
  dirs : gmap string Tree;
  world : World
}.

(** The state of a run: the disk, the flag [classicApplied], and how many
    builds the run has started. *)
Record RunState := mkRun {
  disk : Disk;
  classicApplied : bool;
  builds : nat
}.

(** A step of the run: the state it leaves, and its result or [None] when
    it throws. *)
Definition Run (A : Type) : Type := RunState -> RunState * option A.

Definition run_ret {A} (x : A) : Run A := fun st => (st, Some x).

Definition run_throw {A} : Run A := fun st => (st, None).

Definition run_bind {A B} (m : Run A) (k : A -> Run B) : Run B :=
  fun st =>
    match m st with
    | (st1, Some x) => k x st1
    | (st1, None) => (st1, None)
    end.

(** [try { body } finally { cleanup }]: the cleanup runs in both cases, and
    what it throws replaces the outcome of the body. *)
Definition run_finally {A} (body : Run A) (cleanup : Run unit) : Run A :=
  fun st =>
    match body st with
    | (st1, r) =>
        match cleanup st1 with
        | (st2, Some _) => (st2, r)
        | (st2, None) => (st2, None)
        end
    end.

Declare Scope run_scope.
Delimit Scope run_scope with run.
Notation "x <~ m ;; k" := (run_bind m (fun x => k))
  (at level 100, m at next level, right associativity) : run_scope.
Notation "m ;;; k" := (run_bind m (fun _ => k))
  (at level 100, right associativity) : run_scope.

Definition set_sources (f : FS -> FS) : Run unit :=
  fun st =>
    ({| disk := {| sources := f (sources (disk st));
                   dirs := dirs (disk st);
                   world := world (disk st) |};
        classicApplied := classicApplied st;
        builds := builds st |}, Some tt).

Definition set_dirs (f : gmap string Tree -> gmap string Tree) : Run unit :=
  fun st =>
    ({| disk := {| sources := sources (disk st);
                   dirs := f (dirs (disk st));
                   world := world (disk st) |};
        classicApplied := classicApplied st;
        builds := builds st |}, Some tt).

Definition set_world (w : World) : Run unit :=
  fun st =>
    ({| disk := {| sources := sources (disk st);
                   dirs := dirs (disk st);
                   world := w |};
        classicApplied := classicApplied st;
        builds := builds st |}, Some tt).

(** [read] and [write] as steps. *)
Definition readM (relPath : string) : Run string :=
  fun st => (st, read (sources (disk st)) relPath).

Definition writeM (relPath content : string) : Run unit :=
  set_sources (write relPath content).

(** [rmSync (path, { recursive: true, force: true })]. *)
Definition rmSync (path : string) : Run unit := set_dirs (delete path).

(** [renameSync (oldPath, newPath)] of a directory onto a path that does
    not exist; it throws when [oldPath] does not exist. *)
Definition renameSync (oldPath newPath : string) : Run unit :=
  fun st =>
    match dirs (disk st) !! oldPath with
    | Some tree => set_dirs (fun d => <[newPath := tree]> (delete oldPath d)) st
    | None => (st, None)
    end.

(** [readdirSync (path)]; it throws when the directory does not exist. *)
Definition readdirM (path : string) : Run Tree :=
  fun st => (st, dirs (disk st) !! path).

Definition cleanDist : Run unit := rmSync Paths.dist.

Definition captureOutput (targetDir : string) : Run unit :=
  (* mkdirSync (paths.artifacts, { recursive: true }) creates no entry *)
  (rmSync targetDir ;;;
   renameSync Paths.dist targetDir)%run.

(** [applyClassicTransforms], one file operation after the other. *)
Definition applyClassicTransformsM : Run unit :=
  (writeM "example/src/main.ts" classicMain ;;;
   app <~ readM "example/src/App.vue" ;;
   writeM "example/src/App.vue" (stripVaporAttribute app) ;;;
   hello <~ readM "example/src/components/HelloWorld.vue" ;;
   writeM "example/src/components/HelloWorld.vue" (stripVaporAttribute hello))%run.

Definition restoreSourcesM (originals : list (string * string)) : Run unit :=
  set_sources (restoreSources originals).

Section Main.

Variable toFixed : Z -> Z -> nat -> string.
Variable numToLocaleString : Z -> string.
Variable dateToLocaleString : string -> string.
Variable dateToLocaleDateString : string -> string.
Variable gzipLength : string -> Z.

(** [execSync ('npm run ' + script)], for the build number [n] of the run:
    the build reads the sources and leaves the output directory in some
    state; the flag tells whether the command exited with 0. *)
Variable npmRun : nat -> string -> FS -> option Tree -> option Tree * bool.

Variable isInspectMode : bool.

(** [new Date ().toISOString ()] when the report is written. *)
Variable now : string.

(** The script [runBuild] passes to npm. *)
Definition buildScript : string :=
  if isInspectMode then "build" else "build:ship".

Definition runBuild : Run unit :=
  fun st =>
    let '(out, ok) :=
      npmRun (builds st) buildScript (sources (disk st))
        (dirs (disk st) !! Paths.dist) in
    ({| disk := {| sources := sources (disk st);
                   dirs := match out with
                           | Some tree => <[Paths.dist := tree]> (dirs (disk st))
                           | None => delete Paths.dist (dirs (disk st))
                           end;
                   world := world (disk st) |};
        classicApplied := classicApplied st;
        builds := S (builds st) |},
     if ok then Some tt else None).

Definition directorySizeM (path : string) : Run Z :=
  (dir <~ readdirM path ;; run_ret (directorySize dir))%run.

Definition gzipDirectorySizeM (path : string) : Run Z :=
  (dir <~ readdirM path ;; run_ret (gzipDirectorySize gzipLength dir))%run.

Definition writeReportM (vaporSize classicSize vaporGzip classicGzip : Z)
    : Run unit :=
  fun st =>
    match writeReport toFixed numToLocaleString dateToLocaleString
            dateToLocaleDateString isInspectMode now
            vaporSize classicSize vaporGzip classicGzip (world (disk st)) with
    | Some w => set_world w st
    | None => (st, None)
    end.

(** The [try] block. *)
Definition mainBody : Run unit :=
  (cleanDist ;;;
   runBuild ;;;
   captureOutput Paths.vapor ;;;
   applyClassicTransformsM ;;;
   (fun st => ({| disk := disk st; classicApplied := true;
                  builds := builds st |}, Some tt)) ;;;
   cleanDist ;;;
   runBuild ;;;
   captureOutput Paths.classic ;;;
   vaporSize <~ directorySizeM Paths.vapor ;;
   classicSize <~ directorySizeM Paths.classic ;;
   vaporGzip <~ gzipDirectorySizeM Paths.vapor ;;
   classicGzip <~ gzipDirectorySizeM Paths.classic ;;
   writeReportM vaporSize classicSize vaporGzip classicGzip)%run.

(** The [finally] block. *)
Definition mainCleanup (originals : list (string * string)) : Run unit :=
  fun st =>
    if classicApplied st then
      (restoreSourcesM originals ;;;
       cleanDist ;;;
       runBuild)%run st
    else (st, Some tt).

(** The script from the first statement to the last: the disk it leaves
    and whether it ended without an error.  The originals are read when the
    module is loaded; a tracked file that is missing ends the script
    there. *)
Definition main (d : Disk) : Disk * bool :=
  match captureOriginals (sources d) with
  | None => (d, false)
  | Some originals =>
      match run_finally mainBody (mainCleanup originals)
              {| disk := d; classicApplied := false; builds := 0 |} with
      | (st, Some _) => (disk st, true)
      | (st, None) => (disk st, false)
      end
  end.

End Main.

(* ================================================================== *)
(** * The backfill script [backfill-history.ts] *)
(* ================================================================== *)

(** [v.startsWith ('3.6.0-alpha')]. *)
Definition isAlpha (v : string) : bool :=
  match Str.strip_prefix "3.6.0-alpha" v with
  | Some _ => true
  | None => false
  end.

(** The commands the script runs with [execSync], after the query of the
    registry. *)
Inductive Command :=
| NpmInstall (version : string)
| NpmRunBenchmark.

Section Backfill.

(** The machine the script runs on: registry, installed packages, files. *)
Variable Machine : Type.

(** [JSON.parse (execSync ('npm info vue versions --json'))]; [None] when
    it throws. *)
Variable npmInfoVersions : Machine -> option (list string).

(** The history file of the machine. *)
Variable worldOf : Machine -> World.

(** [execSync ('npm install vue@' + version)]: the machine it leaves and
    whether it exited with 0. *)
Variable npmInstall : string -> Machine -> Machine * bool.

(** [execSync ('npm run benchmark')], likewise. *)
Variable npmRunBenchmark : Machine -> Machine * bool.

Definition getAlphaVersionsFromNpm (m : Machine) : option (list string) :=
  allVersions ← npmInfoVersions m;
  Some (sort compareVersions (List.filter isAlpha allVersions)).

(** [allVersions.filter ((v) => !existingVersions.has (v))]. *)
Definition missingFrom (allVersions : list string)
    (existingVersions : gset string) : list string :=
  List.filter (fun v => negb (bool_decide (v ∈ existingVersions))) allVersions.

Definition getExistingVersions (m : Machine) : gset string :=
  list_to_set (vueVersion <$> readHistory (worldOf m)).

(** The state of the script: the machine and the commands run so far. *)
Record Backfill := mkBackfill {
  machine : Machine;
  commands : list Command
}.

(** [installVersion]; [None] when [execSync] throws. *)
Definition installVersion (version : string) (b : Backfill)
    : Backfill * option unit :=
  let '(m, ok) := npmInstall version (machine b) in
  ({| machine := m; commands := commands b ++ [NpmInstall version] |},
   if ok then Some tt else None).

(** [runBenchmark]: the error is caught. *)
Definition runBenchmark (b : Backfill) : Backfill * bool :=
  let '(m, ok) := npmRunBenchmark (machine b) in
  ({| machine := m; commands := commands b ++ [NpmRunBenchmark] |}, ok).

(** The loop over the missing versions; [results] is the array it fills. *)
Fixpoint benchmarkEach (missingVersions : list string)
    (results : list (string * bool)) (b : Backfill)
    : Backfill * option (list (string * bool)) :=
  match missingVersions with
  | [] => (b, Some results)
  | version :: rest =>
      match installVersion version b with
      | (b1, None) => (b1, None)
      | (b1, Some _) =>
          let '(b2, success) := runBenchmark b1 in
          benchmarkEach rest (results ++ [(version, success)]) b2
      end
  end.

(** [main] of the backfill: the state it leaves and the results, [None]
    when the promise is rejected.  A run with nothing to do returns no
    results. *)
Definition backfillMain (m : Machine)
    : Backfill * option (list (string * bool)) :=
  let b := {| machine := m; commands := [] |} in
  match getAlphaVersionsFromNpm m with
  | None => (b, None)
  | Some allVersions =>
      let existingVersions := getExistingVersions m in
      let missingVersions := missingFrom allVersions existingVersions in
      if (length missingVersions =? 0)%nat then (b, Some [])
      else
        match benchmarkEach missingVersions [] b with
        | (b1, None) => (b1, None)
        | (b1, Some results) =>
            (* allVersions[allVersions.length - 1] *)
            let latestVersion :=
              from_option id "undefined" (last allVersions) in
            match installVersion latestVersion b1 with
            | (b2, None) => (b2, None)
            | (b2, Some _) => (b2, Some results)
            end
        end
  end.

End Backfill.

Arguments machine {Machine} b.
Arguments commands {Machine} b.


(** The commands of a backfill that nothing stops: every missing version
    installed and benchmarked, in order, then the latest version installed
    again. *)
Definition backfillPlan (missingVersions : list string) (latest : string)
    : list Command :=
  concat (map (fun v => [NpmInstall v; NpmRunBenchmark]) missingVersions)
  ++ [NpmInstall latest].

(** The bytes [statSync (_).size] counts. *)
Definition byteLength (data : string) : Z := Z.of_nat (String.length data).

(** From a state that satisfies [P] the step [m] ends in a state that
    satisfies [Q] of its result, or throws in a state that satisfies [E]. *)
Definition triple {A} (P : RunState -> Prop) (m : Run A)
    (Q : A -> RunState -> Prop) (E : RunState -> Prop) : Prop :=
  forall st, P st ->
    match m st with
    | (st', Some x) => Q x st'
    | (st', None) => E st'
    end.

(** The entry [writeReport] builds. *)
Definition reportEntry (isInspectMode : bool) (now : string)
    (vaporSize classicSize vaporGzip classicGzip : Z) (w : World)
    : BenchmarkEntry :=
  {| timestamp := now;
     mode := if isInspectMode then inspect else benchmark;
     vapor := {| raw := vaporSize; gzipped := vaporGzip |};
     classic := {| raw := classicSize; gzipped := classicGzip |};
     delta := {| raw := vaporSize - classicSize;
                 gzipped := vaporGzip - classicGzip |};
     vueVersion := getVueVersion w |}.

(** The sources after the classic transform of a tree whose two components
    read [c2] and [c3]. *)
Definition classicSources (s0 : FS) (c2 c3 : string) : FS :=
  <["example/src/components/HelloWorld.vue" := stripVaporAttribute c3]>
    (<["example/src/App.vue" := stripVaporAttribute c2]>
       (<["example/src/main.ts" := classicMain]> s0)).

(** [/[\^~]/] on one character, negated. *)
Definition no_range_mark (c : ascii) : bool :=
  negb (Ascii.eqb c "^" || Ascii.eqb c "~").

(* ================================================================== *)
(** * Sample data for the runs *)
(* ================================================================== *)

(** A build output: one script and a directory with one style sheet. *)
Definition sample_tree : Tree :=
  [ ("index.js", File "console.log(1)");
    ("assets", Directory [ ("app.css", File "p{}") ]) ].

(** Stand-ins for gzip and for the two ways a build can end. *)
Definition sample_gzipLength (data : string) : Z :=
  Z.of_nat (String.length data) / 2.

Definition sample_npmRun (n : nat) (script : string) (fs : FS)
    (dist : option Tree) : option Tree * bool :=
  (Some sample_tree, true).

Definition failing_npmRun (n : nat) (script : string) (fs : FS)
    (dist : option Tree) : option Tree * bool :=
  (None, false).

(** A project with the three tracked files, no output directory and a
    history of three versions. *)
Definition sample_disk : Disk :=
  {| sources := sample_fs;
     dirs := ∅;
     world := {| historyFile := Some sample_history;
                 reportFile := None;
                 vueDependency := Some "^3.6.0-alpha.4";
                 events := [] |} |}.

(** Two answers of the registry: one with nothing new, one with a new
    alpha version. *)
Definition sample_registry_done : list string :=
  [ "3.5.0"; "3.6.0-alpha.2"; "3.6.0-alpha.1" ].

Definition sample_registry : list string :=
  [ "3.5.0"; "3.6.0-alpha.10"; "3.6.0-alpha.2"; "3.6.0-beta.1" ].


(* ================================================================== *)
(** * Properties *)
(* ================================================================== *)

Example compare_alpha_2_10 :
  compareVersions "3.6.0-alpha.2" "3.6.0-alpha.10" = -8.
Proof. reflexivity. Qed.

Example compare_stable_rc : compareVersions "3.6.0" "3.6.0-rc.1" = 1.
Proof. reflexivity. Qed.

Example compare_bad_bad : compareVersions "unknown" "3.x" = 0.
Proof. reflexivity. Qed.

(* ------------------------------------------------------------------ *)
(** ** Lemmas on strings *)
(* ------------------------------------------------------------------ *)

Section StringFacts.

Lemma append_assoc (a b c : string) : (a +:+ b) +:+ c = a +:+ b +:+ c.
Proof. induction a as [|x a IH]; simpl; [reflexivity | now rewrite IH]. Qed.

Lemma append_empty_r (a : string) : a +:+ EmptyString = a.
Proof. induction a as [|x a IH]; simpl; [reflexivity | now rewrite IH]. Qed.

Lemma length_append (a b : string) :
  String.length (a +:+ b) = (String.length a + String.length b)%nat.
Proof. induction a as [|x a IH]; simpl; [reflexivity | now rewrite IH]. Qed.

Lemma span_app p d r :
  Str.all p d = true -> stops p r -> Str.span p (d +:+ r) = (d, r).
Proof.
  induction d as [|c d IH]; simpl; intros Hd Hr.
  - destruct r as [|c r]; simpl in *; [reflexivity | now rewrite Hr].
  - apply andb_prop in Hd as [Hc Hd]. rewrite Hc, (IH Hd Hr). reflexivity.
Qed.

Lemma span_spec p s a b :
  Str.span p s = (a, b) -> s = a +:+ b /\ Str.all p a = true /\ stops p b.
Proof.
  revert a b. induction s as [|c s IH]; simpl; intros a b H.
  - inversion H; subst. repeat split.
  - destruct (p c) eqn:Hc.
    + destruct (Str.span p s) as [a' b'] eqn:Hs. inversion H; subst.
      destruct (IH _ _ eq_refl) as (-> & Ha & Hb).
      simpl. rewrite Hc, Ha. repeat split. exact Hb.
    + inversion H; subst. simpl. repeat split. exact Hc.
Qed.

Lemma plus_app p d r :
  d <> EmptyString -> Str.all p d = true -> stops p r ->
  Str.plus p (d +:+ r) = Some (d, r).
Proof.
  intros Hne Hd Hr. unfold Str.plus. rewrite (span_app _ _ _ Hd Hr).
  destruct d; [congruence | reflexivity].
Qed.

Lemma plus_spec p s a b :
  Str.plus p s = Some (a, b) ->
  s = a +:+ b /\ a <> EmptyString /\ Str.all p a = true /\ stops p b.
Proof.
  unfold Str.plus. destruct (Str.span p s) as [a' b'] eqn:Hs.
  destruct (Str.is_empty a') eqn:He; [discriminate |].
  intros H; inversion H; subst.
  destruct (span_spec _ _ _ _ Hs) as (-> & Ha & Hb).
  repeat split; try assumption. intros ->. discriminate.
Qed.

Lemma strip_prefix_app lit r : Str.strip_prefix lit (lit +:+ r) = Some r.
Proof.
  induction lit as [|c lit IH]; simpl.
  - now destruct r.
  - now rewrite Ascii.eqb_refl.
Qed.

Lemma strip_prefix_spec lit s r :
  Str.strip_prefix lit s = Some r -> s = lit +:+ r.
Proof.
  revert s. induction lit as [|c lit IH]; intros s H.
  - destruct s; simpl in H; inversion H; reflexivity.
  - destruct s as [|b s]; simpl in H; [discriminate |].
    destruct (Ascii.eqb c b) eqn:E; [| discriminate].
    apply Ascii.eqb_eq in E as ->. simpl. now rewrite (IH _ H).
Qed.

Lemma is_empty_true s : Str.is_empty s = true -> s = EmptyString.
Proof. now destruct s. Qed.

(** [parseInt] computes the positional value. *)
Lemma parseInt_acc_decimal d acc :
  Str.all Str.is_digit d = true ->
  Str.parseInt_acc acc d = acc * 10 ^ Z.of_nat (String.length d) + decimal d.
Proof.
  revert acc. induction d as [|c d IH]; simpl String.length; intros acc Hd.
  - simpl. lia.
  - simpl in Hd. apply andb_prop in Hd as [Hc Hd].
    cbn [Str.parseInt_acc decimal]. rewrite Hc, (IH _ Hd).
    rewrite Nat2Z.inj_succ, Z.pow_succ_r by lia. ring.
Qed.

Lemma parseInt_decimal d :
  Str.all Str.is_digit d = true -> Str.parseInt d = decimal d.
Proof.
  intros Hd. unfold Str.parseInt. rewrite parseInt_acc_decimal by exact Hd. lia.
Qed.

End StringFacts.

(* ------------------------------------------------------------------ *)
(** ** The matcher finds exactly the strings of the pattern *)
(* ------------------------------------------------------------------ *)

Section Matcher.

Lemma plus_digits d r :
  digit_string d -> stops Str.is_digit r ->
  Str.plus Str.is_digit (d +:+ r) = Some (d, r).
Proof. intros [Hne Hd] Hr. now apply plus_app. Qed.

Lemma plus_digits_end d :
  digit_string d -> Str.plus Str.is_digit d = Some (d, EmptyString).
Proof.
  intros Hd. rewrite <- (append_empty_r d) at 1.
  now apply plus_digits.
Qed.

Lemma match_suffix_empty : match_suffix EmptyString = Some (None, None).
Proof. reflexivity. Qed.

Lemma match_suffix_tag t d5 :
  digit_string d5 ->
  match_suffix ("-" +:+ tag_text t +:+ "." +:+ d5)
  = Some (Some (tag_text t), Some d5).
Proof.
  intros Hd. unfold match_suffix.
  destruct t; simpl; rewrite (plus_digits_end _ Hd); reflexivity.
Qed.

Lemma match_version_app d1 d2 d3 suffix :
  digit_string d1 -> digit_string d2 -> digit_string d3 ->
  stops Str.is_digit suffix ->
  match_version (d1 +:+ "." +:+ d2 +:+ "." +:+ d3 +:+ suffix)
  = '(t, n) ← match_suffix suffix; Some (mkMatch d1 d2 d3 t n).
Proof.
  intros H1 H2 H3 Hs. unfold match_version.
  rewrite (plus_digits d1) by (assumption || reflexivity). simpl.
  rewrite (plus_digits d2) by (assumption || reflexivity). simpl.
  rewrite (plus_digits d3) by assumption. reflexivity.
Qed.

Lemma match_version_stable d1 d2 d3 :
  digit_string d1 -> digit_string d2 -> digit_string d3 ->
  match_version (d1 +:+ "." +:+ d2 +:+ "." +:+ d3)
  = Some (mkMatch d1 d2 d3 None None).
Proof.
  intros H1 H2 H3.
  pose proof (match_version_app d1 d2 d3 EmptyString H1 H2 H3 I) as E.
  now rewrite append_empty_r in E.
Qed.

Lemma match_version_pre d1 d2 d3 t d5 :
  digit_string d1 -> digit_string d2 -> digit_string d3 ->
  digit_string d5 ->
  match_version
    (d1 +:+ "." +:+ d2 +:+ "." +:+ d3 +:+ "-" +:+ tag_text t +:+ "." +:+ d5)
  = Some (mkMatch d1 d2 d3 (Some (tag_text t)) (Some d5)).
Proof.
  intros H1 H2 H3 H5.
  rewrite match_version_app by (assumption || reflexivity).
  now rewrite match_suffix_tag by assumption.
Qed.

Lemma digit_string_truthy d : digit_string d -> truthy (Some d) = true.
Proof. intros [Hne _]. destruct d; [congruence | reflexivity]. Qed.

(** Completeness: a string of the pattern is parsed to the version it
    writes. *)
Lemma parseVersion_writes s v : writes s v -> parseVersion s = parsed_of v.
Proof.
  intros H. unfold parseVersion.
  destruct H as [d1 d2 d3 H1 H2 H3 | d1 d2 d3 t d5 H1 H2 H3 H5].
  - rewrite match_version_stable by assumption. simpl.
    unfold parsed_of; simpl.
    now rewrite !parseInt_decimal by (apply H1 || apply H2 || apply H3).
  - rewrite match_version_pre by assumption. cbn [g1 g2 g3 g4 g5].
    rewrite (digit_string_truthy _ H5).
    assert (truthy (Some (tag_text t)) = true) as -> by now destruct t.
    unfold parsed_of; simpl.
    rewrite !parseInt_decimal by (apply H1 || apply H2 || apply H3 || apply H5).
    now destruct t.
Qed.

Lemma match_tag_spec s t r :
  match_tag s = Some (t, r) -> exists g, t = tag_text g /\ s = tag_text g +:+ r.
Proof.
  unfold match_tag. intros H.
  destruct (Str.strip_prefix "alpha" s) as [r1|] eqn:E1.
  { inversion H; subst. exists alpha. split; [reflexivity |].
    now apply strip_prefix_spec. }
  destruct (Str.strip_prefix "beta" s) as [r2|] eqn:E2.
  { inversion H; subst. exists beta. split; [reflexivity |].
    now apply strip_prefix_spec. }
  destruct (Str.strip_prefix "rc" s) as [r3|] eqn:E3; [| discriminate].
  inversion H; subst. exists rc. split; [reflexivity |].
  now apply strip_prefix_spec.
Qed.

Lemma match_suffix_spec s t n :
  match_suffix s = Some (t, n) ->
  (s = EmptyString /\ t = None /\ n = None) \/
  (exists g d5, digit_string d5 /\ t = Some (tag_text g) /\ n = Some d5 /\
                s = "-" +:+ tag_text g +:+ "." +:+ d5).
Proof.
  unfold match_suffix. intros H.
  match type of H with
  | match ?w with _ => _ end = _ => destruct w as [m|] eqn:Ew
  end.
  - inversion H; subst; clear H. right.
    destruct (Str.strip_prefix "-" s) as [r1|] eqn:E1; [| discriminate].
    cbn [mbind option_bind] in Ew.
    destruct (match_tag r1) as [[tg r2]|] eqn:E2; [| discriminate].
    cbn [mbind option_bind] in Ew.
    destruct (Str.strip_prefix "." r2) as [r3|] eqn:E3; [| discriminate].
    cbn [mbind option_bind] in Ew.
    destruct (Str.plus Str.is_digit r3) as [[d5 r4]|] eqn:E4; [| discriminate].
    cbn [mbind option_bind] in Ew.
    destruct (Str.is_empty r4) eqn:E5; [| discriminate].
    inversion Ew; subst; clear Ew.
    apply strip_prefix_spec in E1, E3. apply is_empty_true in E5.
    destruct (match_tag_spec _ _ _ E2) as (g & -> & ->).
    destruct (plus_spec _ _ _ _ E4) as (-> & Hne & Hd & _).
    subst. exists g, d5. rewrite append_empty_r.
    repeat split; assumption.
  - destruct (Str.is_empty s) eqn:Es; [| discriminate].
    left. inversion H. now rewrite (is_empty_true _ Es).
Qed.

(** Soundness: what the matcher accepts has the shape of the pattern, and
    the groups are the digit strings and the tag of that shape. *)
Lemma match_version_spec s m :
  match_version s = Some m ->
  digit_string (g1 m) /\ digit_string (g2 m) /\ digit_string (g3 m) /\
  ((g4 m = None /\ g5 m = None /\
    s = g1 m +:+ "." +:+ g2 m +:+ "." +:+ g3 m) \/
   (exists g d5, digit_string d5 /\ g4 m = Some (tag_text g) /\
                 g5 m = Some d5 /\
                 s = g1 m +:+ "." +:+ g2 m +:+ "." +:+ g3 m +:+ "-"
                     +:+ tag_text g +:+ "." +:+ d5)).
Proof.
  unfold match_version. intros H.
  destruct (Str.plus Str.is_digit s) as [[d1 r1]|] eqn:E1; [| discriminate].
  cbn [mbind option_bind] in H.
  destruct (Str.strip_prefix "." r1) as [r2|] eqn:E2; [| discriminate].
  cbn [mbind option_bind] in H.
  destruct (Str.plus Str.is_digit r2) as [[d2 r3]|] eqn:E3; [| discriminate].
  cbn [mbind option_bind] in H.
  destruct (Str.strip_prefix "." r3) as [r4|] eqn:E4; [| discriminate].
  cbn [mbind option_bind] in H.
  destruct (Str.plus Str.is_digit r4) as [[d3 r5]|] eqn:E5; [| discriminate].
  cbn [mbind option_bind] in H.
  destruct (match_suffix r5) as [[t n]|] eqn:E6; [| discriminate].
  cbn [mbind option_bind] in H. inversion H; subst; clear H. simpl.
  destruct (plus_spec _ _ _ _ E1) as (-> & N1 & D1 & _).
  destruct (plus_spec _ _ _ _ E3) as (-> & N2 & D2 & _).
  destruct (plus_spec _ _ _ _ E5) as (-> & N3 & D3 & _).
  apply strip_prefix_spec in E2, E4. subst.
  split; [now split |]. split; [now split |]. split; [now split |].
  destruct (match_suffix_spec _ _ _ E6) as [(-> & -> & ->) | (g & d5 & H5 & -> & -> & ->)].
  - left. now rewrite append_empty_r.
  - right. exists g, d5. repeat split; try apply H5. 
Qed.

Lemma match_version_matches s m : match_version s = Some m -> matches_pattern s.
Proof.
  intros H. destruct (match_version_spec _ _ H) as (H1 & H2 & H3 & [(_ & _ & ->) | (g & d5 & H5 & _ & _ & ->)]).
  - eexists. now apply writes_stable.
  - eexists. now apply writes_pre.
Qed.

Lemma matches_pattern_iff s : matches_pattern s <-> is_Some (match_version s).
Proof.
  split.
  - intros [v Hv].
    destruct Hv as [d1 d2 d3 H1 H2 H3 | d1 d2 d3 t d5 H1 H2 H3 H5].
    + rewrite match_version_stable by assumption. now eexists.
    + rewrite match_version_pre by assumption. now eexists.
  - intros [m Hm]. now apply match_version_matches with m.
Qed.

(** A string outside the pattern is parsed to the sentinel. *)
Lemma parseVersion_sentinel s : ~ matches_pattern s -> parseVersion s = sentinel.
Proof.
  intros H. unfold parseVersion.
  destruct (match_version s) as [m|] eqn:E; [| reflexivity].
  exfalso. apply H. now apply match_version_matches with m.
Qed.

End Matcher.

(* ------------------------------------------------------------------ *)
(** ** The comparator as an order *)
(* ------------------------------------------------------------------ *)

Section Comparator.

(** Case analysis on the tests [compareVersions] makes, one at a time,
    closing the cases that arithmetic already settles. *)
Ltac split_tests :=
  repeat (match goal with
          | H : context [Z.eqb ?x ?y] |- _ => destruct (Z.eqb_spec x y)
          | |- context [Z.eqb ?x ?y] => destruct (Z.eqb_spec x y)
          end; cbn [negb] in *; try lia).

Ltac by_cases a b :=
  unfold compareVersions;
  destruct (parseVersion a) as [Ma ma pa [ta|] na];
  destruct (parseVersion b) as [Mb mb pb [tb|] nb];
  cbn [major minor patch prerelease prereleaseNum is_null negb andb].

Lemma compareVersions_refl a : compareVersions a a = 0.
Proof.
  unfold compareVersions.
  destruct (parseVersion a) as [Ma ma pa [ta|] na];
    cbn [major minor patch prerelease prereleaseNum is_null negb andb];
    rewrite !Z.eqb_refl; cbn [negb]; lia.
Qed.

Lemma compareVersions_antisym a b :
  compareVersions b a = - compareVersions a b.
Proof. by_cases a b; split_tests; lia. Qed.

Lemma compareVersions_lt_trans a b c :
  compareVersions a b < 0 -> compareVersions b c < 0 ->
  compareVersions a c < 0.
Proof.
  unfold compareVersions;
  destruct (parseVersion a) as [Ma ma pa [ta|] na];
  destruct (parseVersion b) as [Mb mb pb [tb|] nb];
  destruct (parseVersion c) as [Mc mc pc [tc|] nc];
  cbn [major minor patch prerelease prereleaseNum is_null negb andb];
  intros Hab Hbc; split_tests; lia.
Qed.

Lemma compareVersions_le_trans a b c :
  compareVersions a b <= 0 -> compareVersions b c <= 0 ->
  compareVersions a c <= 0.
Proof.
  unfold compareVersions;
  destruct (parseVersion a) as [Ma ma pa [ta|] na];
  destruct (parseVersion b) as [Mb mb pb [tb|] nb];
  destruct (parseVersion c) as [Mc mc pc [tc|] nc];
  cbn [major minor patch prerelease prereleaseNum is_null negb andb];
  intros Hab Hbc; split_tests; lia.
Qed.

Lemma compareVersions_total a b :
  compareVersions a b <= 0 \/ compareVersions b a <= 0.
Proof. rewrite (compareVersions_antisym a b). lia. Qed.

Lemma prereleaseOrder_tag t : prereleaseOrder (tag_text t) = tag_rank t.
Proof. now destruct t. Qed.

(** What [parseVersion] returns is the record of some version of the
    specification; for a string outside the pattern it is that of 0.0.0. *)
Lemma parseVersion_range s : exists v, parseVersion s = parsed_of v.
Proof.
  destruct (match_version s) as [m|] eqn:E.
  - destruct (match_version_matches _ _ E) as [v Hv].
    exists v. now apply parseVersion_writes.
  - exists (mkSemVer 0 0 0 None). unfold parseVersion. now rewrite E.
Qed.

Lemma tag_text_inj t u : tag_text t = tag_text u -> t = u.
Proof. destruct t, u; simpl; congruence. Qed.

(** The comparator separates any two strings that are parsed differently. *)
Lemma compareVersions_zero_iff a b :
  compareVersions a b = 0 <-> parseVersion a = parseVersion b.
Proof.
  split.
  - destruct (parseVersion_range a) as [[Ma ma pa qa] Ea].
    destruct (parseVersion_range b) as [[Mb mb pb qb] Eb].
    unfold compareVersions. rewrite Ea, Eb. unfold parsed_of.
    cbn [major minor patch prerelease prereleaseNum sv_major sv_minor
         sv_patch sv_pre].
    destruct qa as [[ta na]|], qb as [[tb nb]|];
      cbn [fmap option_fmap option_map from_option fst snd is_null negb andb];
      rewrite ?prereleaseOrder_tag; split_tests; intros H; subst;
      try lia; try reflexivity.
    assert (ta = tb) as -> by (destruct ta, tb; simpl in *; congruence || lia).
    assert (na = nb) as -> by lia. reflexivity.
  - intros E. unfold compareVersions. rewrite E.
    destruct (parseVersion b) as [Mb mb pb [tb|] nb];
      cbn [major minor patch prerelease prereleaseNum is_null negb andb];
      rewrite !Z.eqb_refl; cbn [negb]; lia.
Qed.

(** On the strings of the pattern the sign of [compareVersions] is the
    order of the specification. *)
Lemma compareVersions_spec a b va vb :
  writes a va -> writes b vb ->
  (compareVersions a b ?= 0) = version_order_spec va vb.
Proof.
  intros Ha Hb. unfold compareVersions.
  rewrite (parseVersion_writes _ _ Ha), (parseVersion_writes _ _ Hb).
  destruct va as [Ma ma pa qa], vb as [Mb mb pb qb].
  unfold parsed_of, version_order_spec, pre_order_spec.
  cbn [major minor patch prerelease prereleaseNum sv_major sv_minor
       sv_patch sv_pre].
  destruct (Z.compare_spec Ma Mb) as [-> | HM | HM].
  2:{ rewrite (proj2 (Z.eqb_neq Ma Mb)) by lia. cbn [negb].
      apply Z.compare_lt_iff. lia. }
  2:{ rewrite (proj2 (Z.eqb_neq Ma Mb)) by lia. cbn [negb].
      apply Z.compare_gt_iff. lia. }
  rewrite Z.eqb_refl. cbn [negb].
  destruct (Z.compare_spec ma mb) as [-> | Hm | Hm].
  2:{ rewrite (proj2 (Z.eqb_neq ma mb)) by lia. cbn [negb].
      apply Z.compare_lt_iff. lia. }
  2:{ rewrite (proj2 (Z.eqb_neq ma mb)) by lia. cbn [negb].
      apply Z.compare_gt_iff. lia. }
  rewrite Z.eqb_refl. cbn [negb].
  destruct (Z.compare_spec pa pb) as [-> | Hp | Hp].
  2:{ rewrite (proj2 (Z.eqb_neq pa pb)) by lia. cbn [negb].
      apply Z.compare_lt_iff. lia. }
  2:{ rewrite (proj2 (Z.eqb_neq pa pb)) by lia. cbn [negb].
      apply Z.compare_gt_iff. lia. }
  rewrite Z.eqb_refl. cbn [negb].
  destruct qa as [[ta na]|], qb as [[tb nb]|];
    cbn [fmap option_fmap option_map from_option fst snd is_null negb andb];
    try reflexivity.
  rewrite !prereleaseOrder_tag.
  destruct (Z.compare_spec (tag_rank ta) (tag_rank tb)) as [E | Hr | Hr].
  - rewrite E, Z.eqb_refl. cbn [negb].
    destruct (Z.compare_spec na nb); 
      [apply Z.compare_eq_iff | apply Z.compare_lt_iff | apply Z.compare_gt_iff]; lia.
  - rewrite (proj2 (Z.eqb_neq _ _)) by lia. cbn [negb].
    apply Z.compare_lt_iff. lia.
  - rewrite (proj2 (Z.eqb_neq _ _)) by lia. cbn [negb].
    apply Z.compare_gt_iff. lia.
Qed.

End Comparator.

(* ------------------------------------------------------------------ *)
(** ** The sort *)
(* ------------------------------------------------------------------ *)

Section Sort.

Context {A : Type} (cmp : A -> A -> Z).

Lemma sort_insert_perm x l : sort_insert cmp x l ≡ₚ x :: l.
Proof.
  induction l as [|y l IH]; simpl; [reflexivity |].
  destruct (cmp x y <=? 0); [reflexivity |].
  rewrite IH. apply perm_swap.
Qed.

Lemma sort_perm l : sort cmp l ≡ₚ l.
Proof.
  induction l as [|x l IH]; simpl; [reflexivity |].
  now rewrite sort_insert_perm, IH.
Qed.

(** The comparator is consistent: total and transitive. *)
Hypothesis cmp_total : forall x y, cmp x y <= 0 \/ cmp y x <= 0.
Hypothesis cmp_trans : forall x y z, cmp x y <= 0 -> cmp y z <= 0 -> cmp x z <= 0.

Lemma sort_insert_sorted x l :
  StronglySorted (fun a b => cmp a b <= 0) l ->
  StronglySorted (fun a b => cmp a b <= 0) (sort_insert cmp x l).
Proof.
  induction 1 as [|y l Hl IH Hy]; simpl.
  - repeat constructor.
  - destruct (Z.leb_spec (cmp x y) 0) as [Hxy | Hxy].
    + constructor; [now constructor |].
      constructor; [exact Hxy |].
      eapply Forall_impl; [exact Hy |]. intros z Hz. now apply cmp_trans with y.
    + constructor; [exact IH |].
      rewrite sort_insert_perm. constructor; [| exact Hy].
      destruct (cmp_total x y); [lia | assumption].
Qed.

Lemma sort_sorted l : StronglySorted (fun a b => cmp a b <= 0) (sort cmp l).
Proof.
  induction l as [|x l IH]; simpl; [constructor |].
  now apply sort_insert_sorted.
Qed.

End Sort.

(* ------------------------------------------------------------------ *)
(** ** The history store *)
(* ------------------------------------------------------------------ *)

Section History.

Implicit Types (w : World) (e entry : BenchmarkEntry) (v : string).

Lemma readHistory_writeHistory entry w :
  readHistory (writeHistory entry w)
  = sort (fun a b => compareVersions (vueVersion a) (vueVersion b))
      (filter (fun b => vueVersion b <> vueVersion entry) (readHistory w)
       ++ [entry]).
Proof. reflexivity. Qed.

Lemma writeHistory_perm entry w :
  readHistory (writeHistory entry w)
  ≡ₚ filter (fun b => vueVersion b <> vueVersion entry) (readHistory w)
     ++ [entry].
Proof. rewrite readHistory_writeHistory. apply sort_perm. Qed.

Lemma writeHistory_sorted entry w :
  StronglySorted version_le (readHistory (writeHistory entry w)).
Proof.
  rewrite readHistory_writeHistory.
  apply (sort_sorted (fun a b => compareVersions (vueVersion a) (vueVersion b))).
  - intros x y. apply compareVersions_total.
  - intros x y z. apply compareVersions_le_trans.
Qed.

(** The entries of one version after a write. *)
Lemma writeHistory_version v entry w :
  filter (fun b => vueVersion b = v) (readHistory (writeHistory entry w))
  ≡ₚ if decide (vueVersion entry = v) then [entry]
     else filter (fun b => vueVersion b = v) (readHistory w).
Proof.
  rewrite writeHistory_perm, filter_app, list_filter_filter.
  destruct (decide (vueVersion entry = v)) as [E | E].
  - rewrite (filter_singleton_True _ _ []) by exact E.
    replace (filter _ (readHistory w)) with (@nil BenchmarkEntry);
      [reflexivity |].
    symmetry. induction (readHistory w) as [|b l IH]; [reflexivity |].
    rewrite filter_cons_False; [exact IH | intros [? ?]; congruence].
  - rewrite (filter_singleton_False _ _ []) by exact E.
    rewrite app_nil_r.
    induction (readHistory w) as [|b l IH]; [reflexivity |].
    rewrite !filter_cons.
    destruct (decide (vueVersion b = v)) as [Eb | Eb].
    + rewrite decide_True by (split; congruence). now rewrite IH.
    + rewrite decide_False by (intros [? ?]; congruence). exact IH.
Qed.

Lemma latest_snoc v entries entry :
  latest v (entries ++ [entry])
  = if decide (vueVersion entry = v) then Some entry else latest v entries.
Proof.
  unfold latest. rewrite filter_app.
  destruct (decide (vueVersion entry = v)) as [E | E].
  - rewrite (filter_singleton_True _ _ []) by exact E. apply last_snoc.
  - rewrite (filter_singleton_False _ _ []) by exact E. now rewrite app_nil_r.
Qed.

Lemma latest_Some v entries :
  v ∈ vueVersion <$> entries <-> is_Some (latest v entries).
Proof.
  induction entries as [|entry entries IH] using rev_ind.
  - split; [intros H; inversion H | intros [? H]; discriminate].
  - rewrite latest_snoc, fmap_app, elem_of_app, IH. simpl.
    rewrite list_elem_of_singleton.
    destruct (decide (vueVersion entry = v)) as [E | E].
    + split; [now eexists | now right].
    + split; [intros [H | H]; [exact H | congruence] | now left].
Qed.

(** After any writes, the entries of a version are the latest entry written
    with it, or those the store had at the start when none was. *)
Lemma writeAll_version v entries w :
  filter (fun b => vueVersion b = v) (readHistory (writeAll entries w))
  ≡ₚ match latest v entries with
     | Some e => [e]
     | None => filter (fun b => vueVersion b = v) (readHistory w)
     end.
Proof.
  induction entries as [|entry entries IH] using rev_ind.
  - reflexivity.
  - unfold writeAll. rewrite foldl_app. simpl.
    rewrite writeHistory_version, latest_snoc.
    destruct (decide (vueVersion entry = v)); [reflexivity | exact IH].
Qed.

Lemma writeAll_snoc entries entry w :
  writeAll (entries ++ [entry]) w = writeHistory entry (writeAll entries w).
Proof. unfold writeAll. now rewrite foldl_app. Qed.

(** A collection with one entry for each of its versions has no version
    twice. *)
Lemma one_per_version_NoDup (l : list BenchmarkEntry) :
  (forall x, x ∈ l ->
     exists y, filter (fun b => vueVersion b = vueVersion x) l = [y]) ->
  NoDup (vueVersion <$> l).
Proof.
  induction l as [|a l IH]; intros H; [constructor |].
  assert (Ha : filter (fun b => vueVersion b = vueVersion a) l = []).
  { destruct (H a) as [y Hy]; [now left |].
    rewrite filter_cons_True in Hy by reflexivity. now inversion Hy. }
  simpl. constructor.
  - intros Hin. apply list_elem_of_fmap in Hin as (x & Ex & Hx).
    eapply filter_nil_not_elem_of; [exact Ha | | exact Hx]. now symmetry.
  - apply IH. intros x Hx.
    destruct (H x) as [y Hy]; [now right |].
    rewrite filter_cons_False in Hy; [now exists y |].
    intros E. eapply filter_nil_not_elem_of; [exact Ha | | exact Hx].
    now symmetry.
Qed.

Lemma filter_none (P : BenchmarkEntry -> Prop) `{!forall x, Decision (P x)}
    (l : list BenchmarkEntry) :
  (forall x, x ∈ l -> ~ P x) -> filter P l = [].
Proof.
  induction l as [|a l IH]; intros Hl; [reflexivity |].
  rewrite filter_cons_False by (apply Hl; now left).
  apply IH. intros x Hx. apply Hl. now right.
Qed.

(** In a collection without a repeated version every entry is the only one
    of its version. *)
Lemma NoDup_one_per_version (l : list BenchmarkEntry) x :
  NoDup (vueVersion <$> l) -> x ∈ l ->
  filter (fun b => vueVersion b = vueVersion x) l = [x].
Proof.
  induction l as [|a l IH]; intros Hnd Hx; [now apply elem_of_nil in Hx |].
  simpl in Hnd. apply NoDup_cons in Hnd as [Ha Hnd].
  apply elem_of_cons in Hx as [-> | Hx].
  - rewrite filter_cons_True by reflexivity. f_equal.
    apply filter_none. intros y Hy E. apply Ha. rewrite <- E.
    now apply list_elem_of_fmap_2.
  - rewrite filter_cons_False; [now apply IH |].
    intros E. apply Ha. rewrite E. now apply list_elem_of_fmap_2.
Qed.

(** A write keeps a collection free of repeated versions. *)
Lemma writeHistory_NoDup entry w :
  NoDup (vueVersion <$> readHistory w) ->
  NoDup (vueVersion <$> readHistory (writeHistory entry w)).
Proof.
  intros Hnd. apply one_per_version_NoDup. intros x Hx.
  pose proof (writeHistory_version (vueVersion x) entry w) as Hp.
  destruct (decide (vueVersion entry = vueVersion x)) as [E | E].
  - exists entry. now apply Permutation_singleton_r.
  - assert (Hin : x ∈ readHistory w).
    { rewrite writeHistory_perm in Hx.
      apply elem_of_app in Hx as [Hx | Hx].
      - now apply list_elem_of_filter in Hx as [_ Hx].
      - apply list_elem_of_singleton in Hx. congruence. }
    exists x. apply Permutation_singleton_r.
    now rewrite Hp, (NoDup_one_per_version _ _ Hnd Hin).
Qed.

Lemma writeAll_NoDup entries w :
  NoDup (vueVersion <$> readHistory w) ->
  NoDup (vueVersion <$> readHistory (writeAll entries w)).
Proof.
  intros Hnd. induction entries as [|entry entries IH] using rev_ind.
  - exact Hnd.
  - rewrite writeAll_snoc. now apply writeHistory_NoDup.
Qed.

End History.

(* ------------------------------------------------------------------ *)
(** ** The report *)
(* ------------------------------------------------------------------ *)

Section ReportFacts.

Context (toFixed : Z -> Z -> nat -> string)
        (numToLocaleString : Z -> string)
        (dateToLocaleString dateToLocaleDateString : string -> string).

Implicit Types (recent shown history : list BenchmarkEntry).
Implicit Types (entry prev current : BenchmarkEntry).

Local Abbreviation row := (rowText toFixed dateToLocaleDateString).
Local Abbreviation rows := (historyRows toFixed dateToLocaleDateString).

Lemma trendAt_next recent idx entry prev :
  recent !! S idx = Some prev ->
  trendAt recent idx entry
  = Some (trend_spec (gzipped (vapor entry) - gzipped (vapor prev))).
Proof.
  intros Hp. unfold trendAt.
  pose proof (lookup_lt_Some _ _ _ Hp) as Hlt.
  destruct (Z.ltb_spec (Z.of_nat idx) (Z.of_nat (length recent) - 1)); [| lia].
  replace (idx + 1)%nat with (S idx) by lia. rewrite Hp.
  cbn [mbind option_bind]. unfold trend_spec, TREND_THRESHOLD_BYTES.
  set (change := gzipped (vapor entry) - gzipped (vapor prev)).
  destruct (Z.ltb_spec change (Z.opp 100)).
  - now rewrite decide_True by lia.
  - rewrite decide_False by lia.
    destruct (Z.gtb_spec change 100).
    + now rewrite decide_True by lia.
    + now rewrite decide_False by lia.
Qed.

Lemma trendAt_oldest recent idx entry :
  recent !! S idx = None -> trendAt recent idx entry = Some "—".
Proof.
  intros Hp. unfold trendAt.
  apply lookup_ge_None in Hp.
  destruct (Z.ltb_spec (Z.of_nat idx) (Z.of_nat (length recent) - 1)); [lia |].
  reflexivity.
Qed.

(** The trend cell is always computed. *)
Lemma trendAt_total recent idx entry : is_Some (trendAt recent idx entry).
Proof.
  destruct (recent !! S idx) as [prev|] eqn:E.
  - rewrite (trendAt_next _ _ _ _ E). now eexists.
  - rewrite (trendAt_oldest _ _ _ E). now eexists.
Qed.

Lemma trends_spec_length shown : length (trends_spec shown) = length shown.
Proof. induction shown as [|e l IH]; simpl; [reflexivity | now rewrite IH]. Qed.

Lemma trends_spec_lookup shown i entry :
  shown !! i = Some entry ->
  trends_spec shown !! i
  = Some match shown !! S i with
         | Some prev => trend_spec (gzipped (vapor entry) - gzipped (vapor prev))
         | None => "—"
         end.
Proof.
  revert i. induction shown as [|e l IH]; intros i Hi; [discriminate |].
  destruct i as [|i].
  - simpl in Hi. inversion Hi; subst. simpl. now destruct l.
  - simpl in Hi. simpl. now apply IH.
Qed.

(** The rows, one displayed entry after the other. *)
Lemma historyRows_from newer shown :
  mapM id (imap (fun i => historyRow toFixed dateToLocaleDateString
                            (newer ++ shown) (length newer + i)) shown)
  = Some (zip_with row shown (trends_spec shown)).
Proof.
  revert newer. induction shown as [|e l IH]; intros newer; [reflexivity |].
  rewrite imap_cons. cbn [mapM id].
  assert (Hrow : historyRow toFixed dateToLocaleDateString
                   (newer ++ e :: l) (length newer + 0) e
                 = Some (row e match l with
                               | [] => "—"
                               | prev :: _ =>
                                   trend_spec (gzipped (vapor e)
                                               - gzipped (vapor prev))
                               end)).
  { unfold historyRow. destruct l as [|prev l'].
    - rewrite trendAt_oldest; [reflexivity |].
      apply lookup_ge_None. rewrite length_app. simpl. lia.
    - rewrite (trendAt_next _ _ _ prev); [reflexivity |].
      replace (S (length newer + 0)) with (length newer + 1)%nat by lia.
      rewrite lookup_app_r by lia.
      now replace (length newer + 1 - length newer)%nat with 1%nat by lia. }
  rewrite Hrow. cbn [mbind option_bind].
  rewrite (imap_ext _ (fun i => historyRow toFixed dateToLocaleDateString
                                  ((newer ++ [e]) ++ l)
                                  (length (newer ++ [e]) + i))).
  2:{ intros i x _. unfold compose. rewrite <- app_assoc. simpl.
      rewrite length_app. simpl. f_equal. lia. }
  rewrite IH. reflexivity.
Qed.

Lemma historyRows_spec shown :
  rows shown = Some (zip_with row shown (trends_spec shown)).
Proof. exact (historyRows_from [] shown). Qed.

(** The displayed entries are the last ten benchmark runs, newest first. *)
Lemma recentBenchmarks_take history :
  recentBenchmarks history
  = take HISTORY_DISPLAY_LIMIT
      (reverse (filter (fun b => mode b = benchmark) history)).
Proof. unfold recentBenchmarks, slice_last. now rewrite take_reverse. Qed.

Lemma recentBenchmarks_length history :
  (length (recentBenchmarks history) <= HISTORY_DISPLAY_LIMIT)%nat.
Proof. rewrite recentBenchmarks_take, length_take. lia. Qed.

Lemma recentBenchmarks_suffix history :
  exists older,
    filter (fun b => mode b = benchmark) history
    = older ++ reverse (recentBenchmarks history) /\
    (older = [] \/ length (recentBenchmarks history) = HISTORY_DISPLAY_LIMIT).
Proof.
  unfold recentBenchmarks, slice_last.
  set (l := filter _ history).
  exists (take (length l - HISTORY_DISPLAY_LIMIT) l).
  rewrite reverse_involutive, take_drop. split; [reflexivity |].
  destruct (decide (length l <= HISTORY_DISPLAY_LIMIT)%nat) as [Hle | Hgt].
  - left. replace (length l - HISTORY_DISPLAY_LIMIT)%nat with 0%nat by lia.
    reflexivity.
  - right. rewrite length_reverse, length_drop. lia.
Qed.

Lemma historyLines_spec current history :
  historyLines toFixed dateToLocaleDateString current history
  = Some (if bool_decide (mode current <> inspect) && (0 <? length history)%nat
          then [EmptyString; "## Recent History"; EmptyString]
               ++ (if (0 <? length (recentBenchmarks history))%nat
                   then tableHeader
                        ++ zip_with row (recentBenchmarks history)
                             (trends_spec (recentBenchmarks history))
                   else [])
          else []).
Proof.
  unfold historyLines.
  destruct (bool_decide (mode current <> inspect) && (0 <? length history)%nat);
    [| reflexivity].
  destruct (0 <? length (recentBenchmarks history))%nat.
  - now rewrite historyRows_spec.
  - now rewrite app_nil_r.
Qed.

(** The report is always generated. *)
Lemma generateMarkdownReport_total current history :
  is_Some (generateMarkdownReport toFixed numToLocaleString dateToLocaleString
             dateToLocaleDateString current history).
Proof.
  unfold generateMarkdownReport. rewrite historyLines_spec. now eexists.
Qed.

Lemma writeReport_total isInspectMode now vs cs vg cg w :
  is_Some (writeReport toFixed numToLocaleString dateToLocaleString
             dateToLocaleDateString isInspectMode now vs cs vg cg w).
Proof.
  unfold writeReport.
  match goal with
  | |- context [generateMarkdownReport ?a ?b ?c ?d ?e ?h] =>
      destruct (generateMarkdownReport_total e h) as [md ->]
  end.
  now eexists.
Qed.

End ReportFacts.

(* ------------------------------------------------------------------ *)
(** ** Replacing the first match *)
(* ------------------------------------------------------------------ *)

Section ReplaceFirst.

Lemma append_split a b c d :
  a +:+ b = c +:+ d -> (String.length a <= String.length c)%nat ->
  exists e, c = a +:+ e /\ b = e +:+ d.
Proof.
  revert c. induction a as [|x a IH]; intros c E Hlen.
  - exists c. split; [reflexivity | exact E].
  - destruct c as [|y c]; [simpl in Hlen; lia |].
    simpl in E. injection E as -> E. simpl in Hlen.
    destruct (IH c E ltac:(lia)) as (e & -> & ->).
    now exists e.
Qed.

Variable m : string -> option (string * string).
Variable f : string -> string.

(** What the expression matches at the start of a string is a prefix of it. *)
Hypothesis m_prefix : forall s x rest, m s = Some (x, rest) -> s = x +:+ rest.

(** Either there is no match anywhere and nothing changes, or the leftmost
    match is replaced and the text before and after it is kept. *)
Lemma replace_first_cases s :
  (replace_first m f s = s /\
   forall pre suf, s = pre +:+ suf -> m suf = None)
  \/
  (exists pre x rest,
     s = pre +:+ x +:+ rest /\ m (x +:+ rest) = Some (x, rest) /\
     replace_first m f s = pre +:+ f x +:+ rest /\
     forall p1 p2, pre = p1 +:+ p2 -> p2 <> EmptyString ->
                   m (p2 +:+ x +:+ rest) = None).
Proof.
  induction s as [|c s IH].
  - simpl. destruct (m EmptyString) as [[x rest]|] eqn:E.
    + right. exists EmptyString, x, rest.
      pose proof (m_prefix _ _ _ E) as Hs. simpl.
      rewrite <- Hs, E. repeat split.
      intros p1 p2 Hp Hne. destruct p1, p2; simpl in Hp; congruence.
    + left. split; [reflexivity |].
      intros pre suf Hs. destruct pre, suf; simpl in Hs; congruence.
  - cbn [replace_first]. destruct (m (String c s)) as [[x rest]|] eqn:E.
    + right. exists EmptyString, x, rest.
      pose proof (m_prefix _ _ _ E) as Hs. simpl.
      rewrite <- Hs, E. repeat split.
      intros p1 p2 Hp Hne. destruct p1, p2; simpl in Hp; congruence.
    + destruct IH as [[Hsame Hnone] | (pre & x & rest & Hs & Hm & Hr & Hleft)].
      * left. split; [now rewrite Hsame |].
        intros pre suf Hs. destruct pre as [|c' pre]; simpl in Hs.
        -- now subst suf.
        -- injection Hs as _ Hs. now apply (Hnone pre).
      * right. exists (String c pre), x, rest. simpl.
        rewrite Hr, <- Hs. repeat split; [exact Hm |].
        intros p1 p2 Hp Hne. destruct p1 as [|c' p1]; simpl in Hp.
        -- subst p2. simpl. now rewrite <- Hs.
        -- injection Hp as _ Hp. now apply (Hleft p1).
Qed.

(** A match that starts no later than the leftmost one is the leftmost one. *)
Lemma leftmost_unique pre x rest pre' x' rest' :
  pre +:+ x +:+ rest = pre' +:+ x' +:+ rest' ->
  m (x +:+ rest) = Some (x, rest) ->
  m (x' +:+ rest') = Some (x', rest') ->
  (forall p1 p2, pre = p1 +:+ p2 -> p2 <> EmptyString ->
                 m (p2 +:+ x +:+ rest) = None) ->
  (String.length pre' <= String.length pre)%nat ->
  pre' = pre /\ x' = x /\ rest' = rest.
Proof.
  intros E Hm Hm' Hleft Hlen. symmetry in E.
  destruct (append_split _ _ _ _ E Hlen) as (e & -> & E2).
  destruct e as [|c e].
  - simpl in E2. rewrite append_empty_r. rewrite E2 in Hm'.
    rewrite Hm in Hm'. inversion Hm'. now subst.
  - specialize (Hleft pre' (String c e) eq_refl ltac:(discriminate)).
    rewrite <- E2 in Hleft. congruence.
Qed.

End ReplaceFirst.

(* ------------------------------------------------------------------ *)
(** ** The two expressions of [stripVaporAttribute] *)
(* ------------------------------------------------------------------ *)

Section Transform.

Lemma match_script_setup_sound s tag rest :
  match_script_setup s = Some (tag, rest) ->
  s = tag +:+ rest /\ script_setup_tag tag.
Proof.
  unfold match_script_setup. intros H.
  destruct (Str.strip_prefix "<script" s) as [r1|] eqn:E1; [| discriminate].
  cbn [mbind option_bind] in H.
  destruct (Str.plus Str.is_space r1) as [[ws r2]|] eqn:E2; [| discriminate].
  cbn [mbind option_bind] in H.
  destruct (Str.strip_prefix "setup" r2) as [r3|] eqn:E3; [| discriminate].
  cbn [mbind option_bind] in H.
  destruct (Str.span not_gt r3) as [attrs r4] eqn:E4.
  destruct (Str.strip_prefix ">" r4) as [r5|] eqn:E5; [| discriminate].
  cbn [mbind option_bind] in H. inversion H; subst; clear H.
  apply strip_prefix_spec in E1, E3, E5.
  destruct (plus_spec _ _ _ _ E2) as (-> & Hne & Hws & _).
  destruct (span_spec _ _ _ _ E4) as (-> & Hattrs & _).
  split.
  - rewrite E1, E3, E5. simpl.
    now rewrite !append_assoc; simpl; rewrite !append_assoc.
  - exists ws, attrs. repeat split; assumption.
Qed.

Lemma match_script_setup_complete tag post :
  script_setup_tag tag -> match_script_setup (tag +:+ post) = Some (tag, post).
Proof.
  intros (ws & attrs & [Hne Hws] & Hattrs & ->). unfold match_script_setup.
  rewrite !append_assoc. rewrite strip_prefix_app. cbn [mbind option_bind].
  rewrite plus_app by (assumption || reflexivity). cbn [mbind option_bind].
  rewrite strip_prefix_app. cbn [mbind option_bind].
  rewrite span_app by (assumption || reflexivity).
  rewrite strip_prefix_app. reflexivity.
Qed.

Lemma match_script_setup_prefix s x rest :
  match_script_setup s = Some (x, rest) -> s = x +:+ rest.
Proof. intros H. now apply match_script_setup_sound in H. Qed.

Lemma match_vapor_sound s tok rest :
  match_vapor s = Some (tok, rest) -> s = tok +:+ rest /\ vapor_token tok rest.
Proof.
  unfold match_vapor. intros H.
  destruct (Str.plus Str.is_space s) as [[ws r1]|] eqn:E1; [| discriminate].
  cbn [mbind option_bind] in H.
  destruct (Str.strip_prefix "vapor" r1) as [r2|] eqn:E2; [| discriminate].
  cbn [mbind option_bind] in H.
  destruct (before_space_or_gt r2) eqn:E3; [| discriminate].
  inversion H; subst; clear H.
  apply strip_prefix_spec in E2.
  destruct (plus_spec _ _ _ _ E1) as (-> & Hne & Hws & _). subst.
  split; [now rewrite append_assoc |].
  exists ws. repeat split; assumption.
Qed.

Lemma match_vapor_complete tok next :
  vapor_token tok next -> match_vapor (tok +:+ next) = Some (tok, next).
Proof.
  intros (ws & [Hne Hws] & -> & Hnext). unfold match_vapor.
  rewrite append_assoc.
  rewrite plus_app by (assumption || reflexivity). cbn [mbind option_bind].
  rewrite strip_prefix_app. cbn [mbind option_bind]. now rewrite Hnext.
Qed.

Lemma match_vapor_prefix s x rest :
  match_vapor s = Some (x, rest) -> s = x +:+ rest.
Proof. intros H. now apply match_vapor_sound in H. Qed.

(** The inner replacement, on any text: the leftmost token is removed, or
    there is none and the text is unchanged. *)
Lemma remove_vapor_cases tag :
  (replace_first match_vapor (fun _ => EmptyString) tag = tag /\
   ~ exists t1 tok t2, token_at tag t1 tok t2)
  \/
  (exists t1 tok t2,
     token_at tag t1 tok t2 /\
     replace_first match_vapor (fun _ => EmptyString) tag = t1 +:+ t2 /\
     forall u1 tok' u2, token_at tag u1 tok' u2 ->
                        (String.length t1 <= String.length u1)%nat).
Proof.
  destruct (replace_first_cases match_vapor (fun _ => EmptyString)
              match_vapor_prefix tag)
    as [[Hsame Hnone] | (t1 & tok & t2 & Hs & Hm & Hr & Hleft)].
  - left. split; [exact Hsame |].
    intros (u1 & tok & u2 & Hu & Htok).
    pose proof (match_vapor_complete _ _ Htok) as Hc.
    rewrite (Hnone u1 (tok +:+ u2) Hu) in Hc. discriminate.
  - right. exists t1, tok, t2.
    destruct (match_vapor_sound _ _ _ Hm) as [_ Htok].
    split; [now split |]. split; [exact Hr |].
    intros u1 tok' u2 [Hu Htok'].
    destruct (Nat.le_gt_cases (String.length t1) (String.length u1))
      as [Hle | Hgt]; [exact Hle | exfalso].
    assert (E : t1 +:+ tok +:+ t2 = u1 +:+ tok' +:+ u2) by congruence.
    destruct (leftmost_unique match_vapor t1 tok t2 u1 tok' u2 E Hm
                (match_vapor_complete _ _ Htok') Hleft ltac:(lia))
      as (-> & _ & _).
    lia.
Qed.

End Transform.

(* ================================================================== *)
(** * The statements of the specification *)
(* ================================================================== *)

Section VersionStatements.

(** C2: [compareVersions] is documented to return -1, 0 or 1; on the
    versions 3.0.0 and 1.0.0 it returns the difference of the majors, 2,
    which is none of the three. *)
Theorem compareVersions_returns_difference :
  compareVersions "3.0.0" "1.0.0" = 2 /\
  ~ (compareVersions "3.0.0" "1.0.0" = -1 \/
     compareVersions "3.0.0" "1.0.0" = 0 \/
     compareVersions "3.0.0" "1.0.0" = 1).
Proof.
  assert (E : compareVersions "3.0.0" "1.0.0" = 2) by reflexivity.
  split; [exact E |]. rewrite E. lia.
Qed.


Lemma digit_string_3 : digit_string "3".
Proof. split; [discriminate | reflexivity]. Defined.

Lemma digit_string_6 : digit_string "6".
Proof. split; [discriminate | reflexivity]. Defined.

Lemma digit_string_0 : digit_string "0".
Proof. split; [discriminate | reflexivity]. Defined.

Lemma digit_string_2 : digit_string "2".
Proof. split; [discriminate | reflexivity]. Defined.

Lemma digit_string_10 : digit_string "10".
Proof. split; [discriminate | reflexivity]. Defined.

Lemma writes_alpha_2 :
  writes "3.6.0-alpha.2" (mkSemVer 3 6 0 (Some (alpha, 2))).
Proof.
  exact (writes_pre "3" "6" "0" alpha "2"
           digit_string_3 digit_string_6 digit_string_0 digit_string_2).
Defined.

Lemma writes_alpha_10 :
  writes "3.6.0-alpha.10" (mkSemVer 3 6 0 (Some (alpha, 10))).
Proof.
  exact (writes_pre "3" "6" "0" alpha "10"
           digit_string_3 digit_string_6 digit_string_0 digit_string_10).
Defined.

Lemma writes_stable_360 : writes "3.6.0" (mkSemVer 3 6 0 None).
Proof.
  exact (writes_stable "3" "6" "0"
           digit_string_3 digit_string_6 digit_string_0).
Defined.


Lemma parsed_of_inj v w : parsed_of v = parsed_of w -> v = w.
Proof.
  destruct v as [M1 m1 p1 q1], w as [M2 m2 p2 q2]. unfold parsed_of.
  cbn [sv_major sv_minor sv_patch sv_pre]. intros E.
  injection E as -> -> -> Et En. f_equal.
  destruct q1 as [[t1 n1]|], q2 as [[t2 n2]|]; simpl in *;
    try discriminate; [| reflexivity].
  injection Et as Et. apply tag_text_inj in Et. now subst.
Qed.



(** C6: a string outside the pattern is parsed, without failing, to the
    sentinel 0.0.0 with no prerelease tag and prerelease number 0; two such
    strings compare equal. *)
Theorem unparseable_versions_compare_equal (a b : string) :
  ~ matches_pattern a -> ~ matches_pattern b ->
  parseVersion a = mkParsed 0 0 0 None 0 /\
  parseVersion b = mkParsed 0 0 0 None 0 /\
  compareVersions a b = 0.
Proof.
  intros Ha Hb.
  pose proof (parseVersion_sentinel _ Ha) as Ea.
  pose proof (parseVersion_sentinel _ Hb) as Eb.
  split; [exact Ea |]. split; [exact Eb |].
  unfold compareVersions. now rewrite Ea, Eb.
Qed.

Lemma unknown_outside_pattern : ~ matches_pattern "unknown".
Proof.
  intros H. apply matches_pattern_iff in H. destruct H as [m Hm].
  discriminate Hm.
Defined.

Lemma partial_outside_pattern : ~ matches_pattern "3.6".
Proof.
  intros H. apply matches_pattern_iff in H. destruct H as [m Hm].
  discriminate Hm.
Defined.

Lemma unparseable_versions_compare_equal_witness :
  parseVersion "unknown" = mkParsed 0 0 0 None 0 /\
  parseVersion "3.6" = mkParsed 0 0 0 None 0 /\
  compareVersions "unknown" "3.6" = 0.
Proof.
  exact (unparseable_versions_compare_equal "unknown" "3.6"
           unknown_outside_pattern partial_outside_pattern).
Defined.

End VersionStatements.

Section HistoryStatements.

(** C1: starting from any stored collection, after the writes [earlier] and
    then the write of [entry], the collection is sorted ascending by the
    comparator; for every version written it holds exactly one entry, the
    latest one written with that version; a store without a repeated
    version stays so; a store that was empty at the start holds exactly the
    versions written; and one more write with the version of [entry] leaves
    exactly that new entry for the version. *)
Theorem writeHistory_one_entry_per_version_sorted
    (w : World) (earlier : list BenchmarkEntry) (entry : BenchmarkEntry) :
  StronglySorted version_le (readHistory (writeAll (earlier ++ [entry]) w))
  /\ (forall x, x ∈ earlier ++ [entry] ->
        exists y,
          latest (vueVersion x) (earlier ++ [entry]) = Some y /\
          filter (fun b => vueVersion b = vueVersion x)
            (readHistory (writeAll (earlier ++ [entry]) w)) = [y])
  /\ (NoDup (vueVersion <$> readHistory w) ->
        NoDup (vueVersion <$> readHistory (writeAll (earlier ++ [entry]) w)))
  /\ (readHistory w = [] ->
        forall v,
          v ∈ vueVersion <$> readHistory (writeAll (earlier ++ [entry]) w)
          <-> v ∈ vueVersion <$> earlier ++ [entry])
  /\ (forall second,
        vueVersion second = vueVersion entry ->
        filter (fun b => vueVersion b = vueVersion entry)
          (readHistory
             (writeHistory second (writeAll (earlier ++ [entry]) w)))
        = [second]).
Proof.
  set (written := earlier ++ [entry]).
  assert (Hone : forall x, x ∈ written ->
            exists y,
              latest (vueVersion x) written = Some y /\
              filter (fun b => vueVersion b = vueVersion x)
                (readHistory (writeAll written w)) = [y]).
  { intros x Hx.
    assert (Hin : vueVersion x ∈ vueVersion <$> written)
      by now apply list_elem_of_fmap_2.
    apply latest_Some in Hin as [y Hy]. exists y. split; [exact Hy |].
    apply Permutation_singleton_r.
    rewrite writeAll_version, Hy. reflexivity. }
  split.
  { unfold written. rewrite writeAll_snoc. apply writeHistory_sorted. }
  split; [exact Hone |].
  split; [apply writeAll_NoDup |]. split.
  - intros Hempty v. split.
    + intros Hv. apply list_elem_of_fmap in Hv as (x & -> & Hx).
      apply latest_Some.
      destruct (latest (vueVersion x) written) as [y|] eqn:Hy;
        [now eexists | exfalso].
      pose proof (writeAll_version (vueVersion x) written w) as Hp.
      rewrite Hy, Hempty in Hp. simpl in Hp.
      apply Permutation_nil_r in Hp.
      eapply filter_nil_not_elem_of; [exact Hp | | exact Hx]. reflexivity.
    + intros Hv. apply list_elem_of_fmap in Hv as (x & -> & Hx).
      destruct (Hone x Hx) as (y & _ & Hy).
      assert (Hin : y ∈ filter (fun b => vueVersion b = vueVersion x)
                          (readHistory (writeAll written w)))
        by (rewrite Hy; now left).
      apply list_elem_of_filter in Hin as [E Hin].
      rewrite <- E. now apply list_elem_of_fmap_2.
  - intros second E. apply Permutation_singleton_r.
    rewrite writeHistory_version. now rewrite decide_True by exact E.
Qed.

(** A version that the starting collection repeats and that no write
    carries stays repeated: the write only cleans up its own version. *)
Example writeHistory_keeps_foreign_duplicates :
  vueVersion <$>
    readHistory
      (writeHistory (sample_entry "3.6.0-alpha.2" 21000)
         (mkWorld (Some [ sample_entry "3.6.0-alpha.1" 21500;
                          sample_entry "3.6.0-alpha.1" 21400 ])
                  None None []))
  = [ "3.6.0-alpha.1"; "3.6.0-alpha.1"; "3.6.0-alpha.2" ].
Proof. reflexivity. Qed.

Example writeHistory_replaces_and_sorts :
  (fun b => (vueVersion b, gzipped (vapor b))) <$>
    readHistory
      (writeAll [ sample_entry "3.6.0-alpha.10" 1; sample_entry "3.6.0" 2;
                  sample_entry "3.6.0-alpha.2" 3; sample_entry "3.6.0" 4 ]
         (mkWorld None None None []))
  = [ ("3.6.0-alpha.2", 3); ("3.6.0-alpha.10", 1); ("3.6.0", 4) ].
Proof. reflexivity. Qed.

End HistoryStatements.

Section ReportStatements.

Context (toFixed : Z -> Z -> nat -> string)
        (numToLocaleString : Z -> string)
        (dateToLocaleString dateToLocaleDateString : string -> string).

(** C8: a run in inspect mode writes the report and nothing else: the
    history write is not among the events of [writeReport] and the stored
    collection is the one from before. *)
Theorem inspect_leaves_history_unchanged
    (now : string) (vaporSize classicSize vaporGzip classicGzip : Z)
    (w : World) :
  exists w' markdown,
    writeReport toFixed numToLocaleString dateToLocaleString
      dateToLocaleDateString true now vaporSize classicSize vaporGzip
      classicGzip w = Some w' /\
    historyFile w' = historyFile w /\
    readHistory w' = readHistory w /\
    events w' = events w ++ [ReportWritten markdown].
Proof.
  unfold writeReport. cbn [negb].
  match goal with
  | |- context [generateMarkdownReport ?a ?b ?c ?d ?e ?h] =>
      destruct (generateMarkdownReport_total a b c d e h) as [md ->]
  end.
  cbn [mbind option_bind]. eexists _, md. repeat split.
Qed.


(** C10: the trend of a displayed entry that has a next older displayed
    entry is a function of the difference of the two Vapor gzipped sizes
    alone; entries with the same two sizes get the same trend whatever
    their other fields are. *)
Theorem trend_from_vapor_gzipped (history : list BenchmarkEntry) (idx : nat)
    (entry prev : BenchmarkEntry) :
  recentBenchmarks history !! idx = Some entry ->
  recentBenchmarks history !! S idx = Some prev ->
  trendAt (recentBenchmarks history) idx entry
  = Some (trend_spec (gzipped (vapor entry) - gzipped (vapor prev))) /\
  historyRow toFixed dateToLocaleDateString (recentBenchmarks history) idx entry
  = Some (rowText toFixed dateToLocaleDateString entry
            (trend_spec (gzipped (vapor entry) - gzipped (vapor prev)))) /\
  (forall recent' entry' prev',
     recent' !! S idx = Some prev' ->
     gzipped (vapor entry') = gzipped (vapor entry) ->
     gzipped (vapor prev') = gzipped (vapor prev) ->
     trendAt recent' idx entry'
     = trendAt (recentBenchmarks history) idx entry).
Proof.
  intros Hentry Hprev.
  pose proof (trendAt_next _ _ entry _ Hprev) as E.
  split; [exact E |]. split.
  - unfold historyRow. now rewrite E.
  - intros recent' entry' prev' Hprev' Ee Ep.
    rewrite E, (trendAt_next _ _ entry' _ Hprev'). now rewrite Ee, Ep.
Qed.

(** In benchmark mode the same function does write the history. *)
Lemma benchmark_run_writes_history
    (now : string) (vaporSize classicSize vaporGzip classicGzip : Z)
    (w : World) :
  exists w' entry markdown,
    writeReport toFixed numToLocaleString dateToLocaleString
      dateToLocaleDateString false now vaporSize classicSize vaporGzip
      classicGzip w = Some w' /\
    historyFile w' = historyFile (writeHistory entry w) /\
    events w' = events w ++ [HistoryWritten entry; ReportWritten markdown].
Proof.
  unfold writeReport. cbn [negb].
  match goal with
  | |- context [generateMarkdownReport ?a ?b ?c ?d ?e ?h] =>
      destruct (generateMarkdownReport_total a b c d e h) as [md ->]
  end.
  cbn [mbind option_bind]. eexists _, _, md. repeat split.
  cbn [events writeHistory]. now rewrite <- app_assoc.
Qed.

End ReportStatements.

(** Eleven benchmark entries, each 200 bytes above the one before: ten are
    displayed, and the oldest displayed one has the dash although the
    history holds an older entry. *)
Example oldest_displayed_row_has_no_trend :
  let history :=
    (fun n => sample_entry "3.6.0" (200 * Z.of_nat n)) <$> seq 0 11 in
  length (filter (fun b => mode b = benchmark) history) = 11%nat /\
  length (recentBenchmarks history) = 10%nat /\
  imap (trendAt (recentBenchmarks history)) (recentBenchmarks history)
  = replicate 9 (Some "↑ Regressing") ++ [Some "—"].
Proof. repeat split. Qed.


Lemma trend_from_vapor_gzipped_witness :
  trendAt (recentBenchmarks sample_history) 1
    (sample_entry "3.6.0-alpha.2" 21000)
  = Some (trend_spec (21000 - 21500)).
Proof.
  exact (proj1 (trend_from_vapor_gzipped sample_toFixed sample_dateToString
                  sample_history 1 (sample_entry "3.6.0-alpha.2" 21000)
                  (sample_entry "3.6.0-alpha.1" 21500) eq_refl eq_refl)).
Defined.

Section TransformStatements.


Lemma sample_tag : script_setup_tag "<script setup vapor lang='ts'>".
Proof.
  exists " ", " vapor lang='ts'".
  split; [split; [discriminate | reflexivity] |].
  split; reflexivity.
Defined.


Example stripVaporAttribute_sample :
  stripVaporAttribute "<template vapor><script setup vapor lang='ts'><p vapor>"
  = "<template vapor><script setup lang='ts'><p vapor>".
Proof. reflexivity. Qed.

Example stripVaporAttribute_no_tag :
  stripVaporAttribute "<script vapor setup>" = "<script vapor setup>".
Proof. reflexivity. Qed.


Lemma sample_fs_tracked f : f ∈ trackedFiles -> is_Some (read sample_fs f).
Proof.
  intros Hf. unfold trackedFiles in Hf.
  apply elem_of_cons in Hf as [-> | Hf]; [now eexists |].
  apply elem_of_cons in Hf as [-> | Hf]; [now eexists |].
  apply elem_of_cons in Hf as [-> | Hf]; [now eexists |].
  now apply elem_of_nil in Hf.
Defined.


(** On the sample tree the transform does change two of the three files. *)
Example applyClassicTransforms_sample :
  (fun fs => fs !! "example/src/App.vue") <$> applyClassicTransforms sample_fs
  = Some (Some "<script setup>import './a'</script>").
Proof. vm_compute. reflexivity. Qed.

End TransformStatements.

(* ================================================================== *)
(** * The rest of the script: sizes, the run, the backfill *)
(* ================================================================== *)

(* ------------------------------------------------------------------ *)
(** ** Sizes of a directory tree *)
(* ------------------------------------------------------------------ *)

Section Sizes.

(** Induction on a tree: a directory has the property when all its entries
    have it. *)
Lemma Node_ind (P : Node -> Prop) :
  (forall data, P (File data)) ->
  (forall entries, Forall (fun e => P (snd e)) entries -> P (Directory entries)) ->
  P Other ->
  forall n, P n.
Proof.
  intros HF HD HO.
  fix IH 1. intros [data | entries |].
  - apply HF.
  - apply HD. induction entries as [|e entries IHl]; constructor.
    + apply IH.
    + exact IHl.
  - exact HO.
Qed.

Lemma sumZ_nil : sumZ [] = 0.
Proof. reflexivity. Qed.

Lemma sumZ_cons (x : Z) (l : list Z) : sumZ (x :: l) = x + sumZ l.
Proof. reflexivity. Qed.

Lemma foldl_total {A} (f : A -> Z) (l : list A) (start : Z) :
  foldl (fun total e => total + f e) start l = start + sumZ (f <$> l).
Proof.
  revert start. induction l as [|x l IH]; intros start.
  - cbn. rewrite sumZ_nil. lia.
  - cbn [foldl]. rewrite IH, fmap_cons, sumZ_cons. lia.
Qed.

Lemma sumZ_app (l k : list Z) : sumZ (l ++ k) = sumZ l + sumZ k.
Proof.
  induction l as [|x l IH]; [reflexivity |].
  rewrite <- app_comm_cons, !sumZ_cons, IH. lia.
Qed.

Lemma sumZ_concat_map {A} (g : A -> list Z) (l : list A) :
  sumZ (concat (map g l)) = sumZ ((fun x => sumZ (g x)) <$> l).
Proof.
  induction l as [|x l IH]; [reflexivity |].
  cbn [map concat]. now rewrite sumZ_app, IH, fmap_cons, sumZ_cons.
Qed.

Lemma sumZ_perm (l k : list Z) : l ≡ₚ k -> sumZ l = sumZ k.
Proof. induction 1; rewrite ?sumZ_cons; lia. Qed.

Lemma fmap_concat_map {A B C} (f : B -> C) (g : A -> list B) (l : list A) :
  f <$> concat (map g l) = concat (map (fun x => f <$> g x) l).
Proof.
  induction l as [|x l IH]; [reflexivity |].
  cbn [map concat]. now rewrite fmap_app, IH.
Qed.

Lemma sumZ_ext_Forall {A} (f g : A -> Z) (l : list A) :
  Forall (fun x => f x = g x) l -> sumZ (f <$> l) = sumZ (g <$> l).
Proof.
  induction 1 as [|x l Hx _ IH]; [reflexivity |].
  now rewrite !fmap_cons, !sumZ_cons, Hx, IH.
Qed.

Lemma entrySize_files entry :
  entrySize entry = sumZ (byteLength <$> filesOfEntry entry).
Proof.
  induction entry as [data | entries IH |] using Node_ind.
  - cbn. rewrite sumZ_cons, sumZ_nil. unfold byteLength. lia.
  - cbn [entrySize filesOfEntry]. rewrite foldl_total.
    rewrite fmap_concat_map, sumZ_concat_map.
    rewrite (sumZ_ext_Forall _ _ _ IH). lia.
  - reflexivity.
Qed.

Lemma directorySize_files dir :
  directorySize dir = sumZ (byteLength <$> filesOf dir).
Proof.
  unfold directorySize, filesOf. rewrite foldl_total.
  rewrite fmap_concat_map, sumZ_concat_map.
  rewrite (sumZ_ext_Forall _ (fun e => sumZ (byteLength <$> filesOfEntry (snd e)))).
  - lia.
  - apply Forall_forall. intros e _. apply entrySize_files.
Qed.

Variable gzipLength : string -> Z.

Lemma entryGzipSize_files entry :
  entryGzipSize gzipLength entry = sumZ (gzipLength <$> filesOfEntry entry).
Proof.
  induction entry as [data | entries IH |] using Node_ind.
  - cbn. rewrite sumZ_cons, sumZ_nil. lia.
  - cbn [entryGzipSize filesOfEntry]. rewrite foldl_total.
    rewrite fmap_concat_map, sumZ_concat_map.
    rewrite (sumZ_ext_Forall _ _ _ IH). lia.
  - reflexivity.
Qed.

Lemma gzipDirectorySize_files dir :
  gzipDirectorySize gzipLength dir = sumZ (gzipLength <$> filesOf dir).
Proof.
  unfold gzipDirectorySize, filesOf. rewrite foldl_total.
  rewrite fmap_concat_map, sumZ_concat_map.
  rewrite (sumZ_ext_Forall _ (fun e => sumZ (gzipLength <$> filesOfEntry (snd e)))).
  - lia.
  - apply Forall_forall. intros e _. apply entryGzipSize_files.
Qed.

(** X1: both sizes are sums over the regular files found anywhere in the
    tree, the raw size of the byte length of each file and the gzipped size
    of the gzip length of each file taken alone; links and empty
    directories add nothing, and two trees with the same files, in any
    order, nesting or naming, have the same sizes. *)
Theorem sizes_are_sums_over_files (dir dir' : Tree) :
  directorySize dir = sumZ (byteLength <$> filesOf dir) /\
  gzipDirectorySize gzipLength dir = sumZ (gzipLength <$> filesOf dir) /\
  (filesOf dir ≡ₚ filesOf dir' ->
   directorySize dir = directorySize dir' /\
   gzipDirectorySize gzipLength dir = gzipDirectorySize gzipLength dir').
Proof.
  split; [apply directorySize_files |].
  split; [apply gzipDirectorySize_files |].
  intros Hp. rewrite !directorySize_files, !gzipDirectorySize_files.
  split; apply sumZ_perm; now apply fmap_Permutation.
Qed.


End Sizes.

(* ------------------------------------------------------------------ *)
(** ** The steps of the run *)
(* ------------------------------------------------------------------ *)

Section RunSteps.

Lemma vapor_not_dist : Paths.vapor <> Paths.dist.
Proof. discriminate. Qed.

Lemma classic_not_dist : Paths.classic <> Paths.dist.
Proof. discriminate. Qed.

Lemma classic_not_vapor : Paths.classic <> Paths.vapor.
Proof. discriminate. Qed.

(** What [captureOutput] does to the state. *)
Lemma captureOutput_effect (targetDir : string) (st : RunState) :
  targetDir <> Paths.dist ->
  exists st',
    fst (captureOutput targetDir st) = st' /\
    sources (disk st') = sources (disk st) /\
    world (disk st') = world (disk st) /\
    classicApplied st' = classicApplied st /\
    (forall p, p <> targetDir -> p <> Paths.dist ->
               dirs (disk st') !! p = dirs (disk st) !! p) /\
    match dirs (disk st) !! Paths.dist with
    | Some tree =>
        snd (captureOutput targetDir st) = Some tt /\
        dirs (disk st') !! targetDir = Some tree /\
        dirs (disk st') !! Paths.dist = None
    | None =>
        snd (captureOutput targetDir st) = None /\
        dirs (disk st') !! targetDir = None /\
        dirs (disk st') !! Paths.dist = None
    end.
Proof.
  intros Hne. unfold captureOutput, run_bind, rmSync, renameSync, set_dirs.
  cbn [disk dirs sources world classicApplied builds].
  rewrite lookup_delete_ne by congruence.
  destruct (dirs (disk st) !! Paths.dist) as [tree|] eqn:E;
    eexists; (split; [reflexivity |]);
    cbn [fst snd disk dirs sources world classicApplied builds];
    repeat split.
  - intros p Hp Hd. rewrite lookup_insert_ne by congruence.
    now rewrite !lookup_delete_ne by congruence.
  - apply lookup_insert_eq.
  - rewrite lookup_insert_ne by congruence. apply lookup_delete_eq.
  - intros p Hp Hd. now rewrite lookup_delete_ne by congruence.
  - apply lookup_delete_eq.
  - now rewrite lookup_delete_ne by congruence.
Qed.



(** The originals are the contents of the three tracked files. *)
Lemma captureOriginals_Some_inv fs originals :
  captureOriginals fs = Some originals ->
  exists c1 c2 c3,
    fs !! "example/src/main.ts" = Some c1 /\
    fs !! "example/src/App.vue" = Some c2 /\
    fs !! "example/src/components/HelloWorld.vue" = Some c3 /\
    originals = [ ("example/src/main.ts", c1); ("example/src/App.vue", c2);
                  ("example/src/components/HelloWorld.vue", c3) ].
Proof.
  unfold captureOriginals, trackedFiles, read. cbn [foldl].
  cbn [mbind option_bind].
  destruct (fs !! "example/src/main.ts") as [c1|]; [| discriminate].
  cbn [mbind option_bind].
  destruct (fs !! "example/src/App.vue") as [c2|]; [| discriminate].
  cbn [mbind option_bind].
  destruct (fs !! "example/src/components/HelloWorld.vue") as [c3|];
    [| discriminate].
  intros H. exists c1, c2, c3. repeat split. now inversion H.
Qed.

(** Writing back the three originals undoes any change to the three
    tracked files. *)
Lemma restoreSources_undo (fs : FS) c1 c2 c3 x y z :
  fs !! "example/src/main.ts" = Some c1 ->
  fs !! "example/src/App.vue" = Some c2 ->
  fs !! "example/src/components/HelloWorld.vue" = Some c3 ->
  restoreSources
    [ ("example/src/main.ts", c1); ("example/src/App.vue", c2);
      ("example/src/components/HelloWorld.vue", c3) ]
    (<["example/src/components/HelloWorld.vue" := z]>
       (<["example/src/App.vue" := y]>
          (<["example/src/main.ts" := x]> fs))) = fs.
Proof.
  intros H1 H2 H3. unfold restoreSources, write. cbn [foldl].
  apply map_eq. intros i.
  destruct (decide (i = "example/src/components/HelloWorld.vue")) as [-> | N3].
  { now rewrite lookup_insert_eq. }
  rewrite lookup_insert_ne by congruence.
  destruct (decide (i = "example/src/App.vue")) as [-> | N2].
  { now rewrite lookup_insert_eq. }
  rewrite lookup_insert_ne by congruence.
  destruct (decide (i = "example/src/main.ts")) as [-> | N1].
  { now rewrite lookup_insert_eq. }
  rewrite lookup_insert_ne by congruence.
  now rewrite !lookup_insert_ne by congruence.
Qed.

(** With the two component files in place the transform goes through, one
    write after the other. *)
Lemma applyClassicTransformsM_run st c2 c3 :
  sources (disk st) !! "example/src/App.vue" = Some c2 ->
  sources (disk st) !! "example/src/components/HelloWorld.vue" = Some c3 ->
  applyClassicTransformsM st
  = ({| disk :=
          {| sources :=
               <["example/src/components/HelloWorld.vue" := stripVaporAttribute c3]>
                 (<["example/src/App.vue" := stripVaporAttribute c2]>
                    (<["example/src/main.ts" := classicMain]> (sources (disk st))));
             dirs := dirs (disk st);
             world := world (disk st) |};
        classicApplied := classicApplied st;
        builds := builds st |}, Some tt).
Proof.
  intros H2 H3.
  unfold applyClassicTransformsM, run_bind, writeM, readM, set_sources, read,
    write.
  cbn [disk dirs sources world classicApplied builds].
  rewrite lookup_insert_ne by discriminate. rewrite H2.
  cbn [disk dirs sources world classicApplied builds].
  rewrite !lookup_insert_ne by discriminate. rewrite H3. reflexivity.
Qed.

(** The stepwise transform is [applyClassicTransforms]. *)
Lemma applyClassicTransformsM_agrees st :
  match applyClassicTransforms (sources (disk st)) with
  | Some fs =>
      snd (applyClassicTransformsM st) = Some tt /\
      sources (disk (fst (applyClassicTransformsM st))) = fs
  | None => snd (applyClassicTransformsM st) = None
  end.
Proof.
  unfold applyClassicTransforms, applyClassicTransformsM, run_bind, writeM,
    readM, set_sources, read, write.
  cbn [foldl disk dirs sources world classicApplied builds mbind option_bind].
  rewrite lookup_insert_ne by discriminate.
  destruct (sources (disk st) !! "example/src/App.vue") as [c2|];
    [| reflexivity].
  cbn [foldl disk dirs sources world classicApplied builds mbind option_bind].
  rewrite !lookup_insert_ne by discriminate.
  destruct (sources (disk st) !! "example/src/components/HelloWorld.vue")
    as [c3|]; [| reflexivity].
  split; reflexivity.
Qed.

End RunSteps.

(* ------------------------------------------------------------------ *)
(** ** Reasoning about steps: what holds after a result, what after a throw *)
(* ------------------------------------------------------------------ *)

Section Triples.

Lemma triple_bind {A B} P (m : Run A) (k : A -> Run B) R Q E :
  triple P m R E -> (forall x, triple (R x) (k x) Q E) ->
  triple P (run_bind m k) Q E.
Proof.
  intros Hm Hk st HP. unfold run_bind. specialize (Hm st HP).
  destruct (m st) as [st1 [x|]]; [| exact Hm].
  exact (Hk x st1 Hm).
Qed.

Lemma triple_weaken {A} (P P' : RunState -> Prop) (m : Run A)
    (Q Q' : A -> RunState -> Prop) (E E' : RunState -> Prop) :
  triple P' m Q' E' ->
  (forall st, P st -> P' st) -> (forall x st, Q' x st -> Q x st) ->
  (forall st, E' st -> E st) ->
  triple P m Q E.
Proof.
  intros Hm HP HQ HE st Hst. specialize (Hm st (HP st Hst)).
  destruct (m st) as [st1 [x|]]; auto.
Qed.

End Triples.

(* ------------------------------------------------------------------ *)
(** ** What [writeReport] stores *)
(* ------------------------------------------------------------------ *)

Section WriteReportFacts.

Context (toFixed : Z -> Z -> nat -> string)
        (numToLocaleString : Z -> string)
        (dateToLocaleString dateToLocaleDateString : string -> string).

Lemma writeReport_inspect_world now vs cs vg cg w w' :
  writeReport toFixed numToLocaleString dateToLocaleString
    dateToLocaleDateString true now vs cs vg cg w = Some w' ->
  historyFile w' = historyFile w /\
  exists markdown, events w' = events w ++ [ReportWritten markdown].
Proof.
  unfold writeReport. cbn [negb].
  destruct (generateMarkdownReport _ _ _ _ _ _) as [md|]; [| discriminate].
  cbn [mbind option_bind]. intros H. inversion H; subst; clear H.
  split; [reflexivity |]. now exists md.
Qed.

Lemma writeReport_benchmark_world now vs cs vg cg w w' :
  writeReport toFixed numToLocaleString dateToLocaleString
    dateToLocaleDateString false now vs cs vg cg w = Some w' ->
  historyFile w'
  = historyFile (writeHistory (reportEntry false now vs cs vg cg w) w) /\
  exists markdown,
    reportFile w' = Some markdown /\
    generateMarkdownReport toFixed numToLocaleString dateToLocaleString
      dateToLocaleDateString (reportEntry false now vs cs vg cg w)
      (readHistory (writeHistory (reportEntry false now vs cs vg cg w) w))
    = Some markdown /\
    events w'
    = events w ++ [ HistoryWritten (reportEntry false now vs cs vg cg w);
                    ReportWritten markdown ].
Proof.
  unfold writeReport. cbn [negb]. fold (reportEntry false now vs cs vg cg w).
  destruct (generateMarkdownReport _ _ _ _ _ _) as [md|] eqn:E;
    [| discriminate].
  cbn [mbind option_bind]. intros H. inversion H; subst; clear H.
  split; [reflexivity |]. exists md. repeat split.
  cbn [events writeHistory]. now rewrite <- app_assoc.
Qed.

End WriteReportFacts.

(* ------------------------------------------------------------------ *)
(** ** The run from the first build to the last *)
(* ------------------------------------------------------------------ *)

Section MainFacts.

Context (toFixed : Z -> Z -> nat -> string)
        (numToLocaleString : Z -> string)
        (dateToLocaleString dateToLocaleDateString : string -> string)
        (gzipLength : string -> Z)
        (npmRun : nat -> string -> FS -> option Tree -> option Tree * bool)
        (isInspectMode : bool) (now : string).

Local Abbreviation main' :=
  (main toFixed numToLocaleString dateToLocaleString dateToLocaleDateString
     gzipLength npmRun isInspectMode now).
Local Abbreviation mainBody' :=
  (mainBody toFixed numToLocaleString dateToLocaleString
     dateToLocaleDateString gzipLength npmRun isInspectMode now).
Local Abbreviation mainCleanup' := (mainCleanup npmRun isInspectMode).
Local Abbreviation runBuild' := (runBuild npmRun isInspectMode).
Local Abbreviation buildScript' := (buildScript isInspectMode).
Local Abbreviation writeReport' :=
  (writeReport toFixed numToLocaleString dateToLocaleString
     dateToLocaleDateString isInspectMode now).

(** Lookups in a map built by inserting and deleting at the three paths. *)
Ltac map_lookups :=
  repeat first
    [ rewrite lookup_insert_eq
    | rewrite lookup_delete_eq
    | rewrite lookup_insert_ne by discriminate
    | rewrite lookup_delete_ne by discriminate ].

Lemma triple_exists {A T} (P : T -> RunState -> Prop) (m : Run A) Q E :
  (forall t, triple (P t) m Q E) -> triple (fun st => exists t, P t st) m Q E.
Proof. intros H st [t Ht]. exact (H t st Ht). Qed.

Lemma triple_and {A} (C : Prop) (P : RunState -> Prop) (m : Run A) Q E :
  (C -> triple P m Q E) -> triple (fun st => C /\ P st) m Q E.
Proof. intros H st [HC HP]. exact (H HC st HP). Qed.

Lemma writeReport_total' vs cs vg cg w : is_Some (writeReport' vs cs vg cg w).
Proof. apply writeReport_total. Qed.

(** The state of the run as the properties below see it: sources, report
    files, flag, builds started, and the three output directories. *)
Definition at_state (s : FS) (w : World) (flag : bool) (n : nat)
    (vaporDir classicDir distDir : option Tree) (st : RunState) : Prop :=
  sources (disk st) = s /\ world (disk st) = w /\ classicApplied st = flag /\
  builds st = n /\
  dirs (disk st) !! Paths.vapor = vaporDir /\
  dirs (disk st) !! Paths.classic = classicDir /\
  dirs (disk st) !! Paths.dist = distDir.

Lemma cleanDist_at_state s w flag n v c dst :
  triple (at_state s w flag n v c dst) cleanDist
    (fun _ => at_state s w flag n v c None) (fun _ => False).
Proof.
  intros st (Hs & Hw & Hf & Hn & Hv & Hc & Hd).
  unfold cleanDist, rmSync, set_dirs, at_state.
  cbn [disk dirs sources world classicApplied builds].
  map_lookups. repeat split; assumption.
Qed.

Lemma runBuild_at_state s w flag n v c dst :
  triple (at_state s w flag n v c dst) runBuild'
    (fun _ st => snd (npmRun n buildScript' s dst) = true /\
                 at_state s w flag (S n) v c
                   (fst (npmRun n buildScript' s dst)) st)
    (fun st => snd (npmRun n buildScript' s dst) = false /\
               at_state s w flag (S n) v c
                 (fst (npmRun n buildScript' s dst)) st).
Proof.
  intros st (Hs & Hw & Hf & Hn & Hv & Hc & Hd).
  unfold runBuild. rewrite Hs, Hn, Hd. fold buildScript'.
  destruct (npmRun n buildScript' s dst) as [[tree|] [|]];
    unfold at_state; cbn [fst snd disk dirs sources world classicApplied builds];
    map_lookups; repeat split; congruence.
Qed.

Lemma captureOutput_vapor_at_state s w flag n v c dst :
  triple (at_state s w flag n v c dst) (captureOutput Paths.vapor)
    (fun _ st => exists t, dst = Some t /\
                           at_state s w flag n (Some t) c None st)
    (fun st => dst = None /\ at_state s w flag n None c None st).
Proof.
  intros st (Hs & Hw & Hf & Hn & Hv & Hc & Hd).
  unfold captureOutput, run_bind, rmSync, renameSync, set_dirs.
  cbn [disk dirs sources world classicApplied builds].
  rewrite lookup_delete_ne by discriminate. rewrite Hd.
  destruct dst as [tree|]; [exists tree |]; (split; [reflexivity |]);
    unfold at_state; cbn [fst snd disk dirs sources world classicApplied builds];
    map_lookups; repeat split; assumption.
Qed.

Lemma captureOutput_classic_at_state s w flag n v c dst :
  triple (at_state s w flag n v c dst) (captureOutput Paths.classic)
    (fun _ st => exists t, dst = Some t /\
                           at_state s w flag n v (Some t) None st)
    (fun st => dst = None /\ at_state s w flag n v None None st).
Proof.
  intros st (Hs & Hw & Hf & Hn & Hv & Hc & Hd).
  unfold captureOutput, run_bind, rmSync, renameSync, set_dirs.
  cbn [disk dirs sources world classicApplied builds].
  rewrite lookup_delete_ne by discriminate. rewrite Hd.
  destruct dst as [tree|]; [exists tree |]; (split; [reflexivity |]);
    unfold at_state; cbn [fst snd disk dirs sources world classicApplied builds];
    map_lookups; repeat split; assumption.
Qed.

Section Body.

Variables (s0 : FS) (w0 : World) (c1 c2 c3 : string).
Hypothesis H1 : s0 !! "example/src/main.ts" = Some c1.
Hypothesis H2 : s0 !! "example/src/App.vue" = Some c2.
Hypothesis H3 : s0 !! "example/src/components/HelloWorld.vue" = Some c3.

Local Abbreviation classicSources0 := (classicSources s0 c2 c3).

(** The first build, of the sources as they are, and the second, of the
    transformed sources; both start without a [dist] directory. *)
Definition vaporBuild : option Tree * bool := npmRun 0 buildScript' s0 None.
Definition classicBuild : option Tree * bool :=
  npmRun 1 buildScript' classicSources0 None.

(** Both builds exit with 0 and leave an output directory. *)
Definition builds_ok (t0 t1 : Tree) : Prop :=
  vaporBuild = (Some t0, true) /\ classicBuild = (Some t1, true).

(** The try block has returned: both builds went through, their outputs
    are the two artifacts, and the report files are those [writeReport]
    makes from the sizes of the artifacts. *)
Definition body_done (st : RunState) : Prop :=
  exists t0 t1 w',
    builds_ok t0 t1 /\
    at_state classicSources0 w' true 2 (Some t0) (Some t1) None st /\
    writeReport' (directorySize t0) (directorySize t1)
      (gzipDirectorySize gzipLength t0) (gzipDirectorySize gzipLength t1) w0
    = Some w'.

(** The try block has thrown: one of the two builds failed or left no
    output, the report files are untouched, and the sources are the
    original ones with the flag down or the transformed ones with the flag
    up and two builds started. *)
Definition body_thrown (st : RunState) : Prop :=
  (forall t0 t1, ~ builds_ok t0 t1) /\
  exists n v c dst,
    at_state s0 w0 false n v c dst st \/
    at_state classicSources0 w0 true 2 v c dst st.

Lemma applyClassicTransformsM_at_state n v c dst E :
  triple (at_state s0 w0 false n v c dst) applyClassicTransformsM
    (fun _ => at_state classicSources0 w0 false n v c dst) E.
Proof.
  intros st (Hs & Hw & Hf & Hn & Hv & Hc & Hd).
  rewrite (applyClassicTransformsM_run st c2 c3) by (now rewrite Hs).
  unfold at_state, classicSources0.
  cbn [disk dirs sources world classicApplied builds].
  now rewrite Hs.
Qed.

Lemma measure_and_report n t0 t1 dst E :
  triple (at_state classicSources0 w0 true n (Some t0) (Some t1) dst)
    (vaporSize <~ directorySizeM Paths.vapor ;;
     classicSize <~ directorySizeM Paths.classic ;;
     vaporGzip <~ gzipDirectorySizeM gzipLength Paths.vapor ;;
     classicGzip <~ gzipDirectorySizeM gzipLength Paths.classic ;;
     writeReportM toFixed numToLocaleString dateToLocaleString
       dateToLocaleDateString isInspectMode now
       vaporSize classicSize vaporGzip classicGzip)%run
    (fun _ st =>
       exists w',
         at_state classicSources0 w' true n (Some t0) (Some t1) dst st /\
         writeReport' (directorySize t0) (directorySize t1)
           (gzipDirectorySize gzipLength t0)
           (gzipDirectorySize gzipLength t1) w0 = Some w')
    E.
Proof.
  intros st (Hs & Hw & Hf & Hn & Hv & Hc & Hd).
  unfold run_bind, directorySizeM, gzipDirectorySizeM, readdirM, run_bind,
    run_ret, writeReportM.
  rewrite Hv. cbv beta iota. rewrite Hc. cbv beta iota.
  rewrite Hv. cbv beta iota. rewrite Hc. cbv beta iota. rewrite Hw.
  destruct (writeReport_total' (directorySize t0) (directorySize t1)
              (gzipDirectorySize gzipLength t0)
              (gzipDirectorySize gzipLength t1) w0) as [w' Hw'].
  rewrite Hw'. unfold set_world.
  exists w'. split; [| reflexivity].
  unfold at_state. cbn [disk dirs sources world classicApplied builds].
  repeat split; assumption.
Qed.

Lemma mainBody_triple v c dst :
  triple (at_state s0 w0 false 0 v c dst) mainBody'
    (fun _ => body_done) body_thrown.
Proof.
  unfold mainBody.
  (* cleanDist *)
  apply (triple_bind _ _ _ (fun _ => at_state s0 w0 false 0 v c None)).
  { eapply triple_weaken; [apply (cleanDist_at_state s0 w0 false 0 v c dst) | ..];
      [auto | auto | contradiction]. }
  intros _.
  (* runBuild *)
  apply (triple_bind _ _ _
           (fun _ st => snd vaporBuild = true /\
                        at_state s0 w0 false 1 v c (fst vaporBuild) st)).
  { eapply triple_weaken; [apply (runBuild_at_state s0 w0 false 0 v c None) | ..];
      [auto | auto |].
    intros st [Hfail Hst]. split.
    - intros t0 t1 [Hb _]. fold vaporBuild in Hfail. rewrite Hb in Hfail.
      discriminate.
    - exists 1%nat, v, c, (fst (npmRun 0 buildScript' s0 None)). now left. }
  intros _. apply triple_and. intros Hok0.
  (* captureOutput (paths.vapor) *)
  apply (triple_bind _ _ _
           (fun _ st => exists t0, fst vaporBuild = Some t0 /\
                          at_state s0 w0 false 1 (Some t0) c None st)).
  { eapply triple_weaken;
      [apply (captureOutput_vapor_at_state s0 w0 false 1 v c (fst vaporBuild))
      | ..]; [auto | auto |].
    intros st [Hnone Hst]. split.
    - intros t0 t1 [Hb _]. rewrite Hb in Hnone. discriminate.
    - exists 1%nat, None, c, None. now left. }
  intros _. apply triple_exists. intros t0. apply triple_and. intros Hout0.
  assert (Hb0 : vaporBuild = (Some t0, true)).
  { destruct vaporBuild as [o b]. simpl in *. congruence. }
  (* applyClassicTransforms *)
  apply (triple_bind _ _ _
           (fun _ => at_state classicSources0 w0 false 1 (Some t0) c None)).
  { apply applyClassicTransformsM_at_state. }
  intros _.
  (* classicApplied = true *)
  apply (triple_bind _ _ _
           (fun _ => at_state classicSources0 w0 true 1 (Some t0) c None)).
  { intros st (Hs & Hw & Hf & Hn & Hv & Hc & Hd). repeat split; assumption. }
  intros _.
  (* cleanDist *)
  apply (triple_bind _ _ _
           (fun _ => at_state classicSources0 w0 true 1 (Some t0) c None)).
  { eapply triple_weaken;
      [apply (cleanDist_at_state classicSources0 w0 true 1 (Some t0) c None)
      | ..]; [auto | auto | contradiction]. }
  intros _.
  (* runBuild *)
  apply (triple_bind _ _ _
           (fun _ st => snd classicBuild = true /\
                        at_state classicSources0 w0 true 2 (Some t0) c
                          (fst classicBuild) st)).
  { eapply triple_weaken;
      [apply (runBuild_at_state classicSources0 w0 true 1 (Some t0) c None)
      | ..]; [auto | auto |].
    intros st [Hfail Hst]. split.
    - intros u0 u1 [_ Hb]. fold classicBuild in Hfail. rewrite Hb in Hfail.
      discriminate.
    - exists 2%nat, (Some t0), c,
        (fst (npmRun 1 buildScript' classicSources0 None)). now right. }
  intros _. apply triple_and. intros Hok1.
  (* captureOutput (paths.classic) *)
  apply (triple_bind _ _ _
           (fun _ st => exists t1, fst classicBuild = Some t1 /\
                          at_state classicSources0 w0 true 2 (Some t0)
                            (Some t1) None st)).
  { eapply triple_weaken;
      [apply (captureOutput_classic_at_state classicSources0 w0 true 2
                (Some t0) c (fst classicBuild)) | ..]; [auto | auto |].
    intros st [Hnone Hst]. split.
    - intros u0 u1 [_ Hb]. rewrite Hb in Hnone. discriminate.
    - exists 2%nat, (Some t0), None, None. now right. }
  intros _. apply triple_exists. intros t1. apply triple_and. intros Hout1.
  assert (Hb1 : classicBuild = (Some t1, true)).
  { destruct classicBuild as [o b]. simpl in *. congruence. }
  (* the sizes and the report *)
  eapply triple_weaken;
    [apply (measure_and_report 2 t0 t1 None body_thrown) | auto | | auto].
  intros _ st (w' & Hst & Hw'). exists t0, t1, w'.
  split; [now split |]. now split.
Qed.

(** The finally block after the try block: the sources are the original
    ones again; the report files and the two artifacts are as the try block
    left them. *)
Lemma mainCleanup_after n v c dst w flag s st :
  at_state s w flag n v c dst st ->
  (flag = false /\ s = s0) \/ (flag = true /\ s = classicSources0 /\ n = 2%nat) ->
  let st' := fst (mainCleanup'
                    [ ("example/src/main.ts", c1); ("example/src/App.vue", c2);
                      ("example/src/components/HelloWorld.vue", c3) ] st) in
  sources (disk st') = s0 /\ world (disk st') = w /\
  dirs (disk st') !! Paths.vapor = v /\
  dirs (disk st') !! Paths.classic = c /\
  (flag = false ->
   snd (mainCleanup'
          [ ("example/src/main.ts", c1); ("example/src/App.vue", c2);
            ("example/src/components/HelloWorld.vue", c3) ] st) = Some tt /\
   dirs (disk st') !! Paths.dist = dst) /\
  (flag = true ->
   snd (mainCleanup'
          [ ("example/src/main.ts", c1); ("example/src/App.vue", c2);
            ("example/src/components/HelloWorld.vue", c3) ] st)
   = (if snd (npmRun 2 buildScript' s0 None) then Some tt else None) /\
   dirs (disk st') !! Paths.dist = fst (npmRun 2 buildScript' s0 None)).
Proof.
  intros (Hs & Hw & Hf & Hn & Hv & Hc & Hd) Hcase. unfold mainCleanup.
  rewrite Hf. destruct Hcase as [[-> ->] | (-> & -> & ->)].
  - cbn [fst snd]. repeat split; try assumption; discriminate.
  - unfold run_bind, restoreSourcesM, set_sources, cleanDist, rmSync, set_dirs,
      runBuild.
    cbn [disk dirs sources world classicApplied builds].
    rewrite Hs. unfold classicSources0.
    rewrite (restoreSources_undo s0 c1 c2 c3) by assumption.
    rewrite Hn. rewrite lookup_delete_eq. fold buildScript'.
    destruct (npmRun 2 buildScript' s0 None) as [[tree|] [|]];
      cbn [fst snd disk dirs sources world classicApplied builds];
      map_lookups; repeat split; try assumption; try discriminate;
      intros _; split; reflexivity || map_lookups; reflexivity.
Qed.

End Body.

Lemma captureOriginals_Some fs c1 c2 c3 :
  fs !! "example/src/main.ts" = Some c1 ->
  fs !! "example/src/App.vue" = Some c2 ->
  fs !! "example/src/components/HelloWorld.vue" = Some c3 ->
  captureOriginals fs
  = Some [ ("example/src/main.ts", c1); ("example/src/App.vue", c2);
           ("example/src/components/HelloWorld.vue", c3) ].
Proof.
  intros H1 H2 H3. unfold captureOriginals, trackedFiles, read. cbn [foldl].
  cbn [mbind option_bind]. rewrite H1. cbn [mbind option_bind].
  rewrite H2. cbn [mbind option_bind]. rewrite H3. reflexivity.
Qed.

(** Every way the script can end, once the originals are read. *)
Lemma main_outcome (d : Disk) c1 c2 c3 :
  sources d !! "example/src/main.ts" = Some c1 ->
  sources d !! "example/src/App.vue" = Some c2 ->
  sources d !! "example/src/components/HelloWorld.vue" = Some c3 ->
  sources (fst (main' d)) = sources d /\
  ((exists t0 t1 w',
      builds_ok (sources d) c2 c3 t0 t1 /\
      writeReport' (directorySize t0) (directorySize t1)
        (gzipDirectorySize gzipLength t0) (gzipDirectorySize gzipLength t1)
        (world d) = Some w' /\
      world (fst (main' d)) = w' /\
      dirs (fst (main' d)) !! Paths.vapor = Some t0 /\
      dirs (fst (main' d)) !! Paths.classic = Some t1 /\
      dirs (fst (main' d)) !! Paths.dist
      = fst (npmRun 2 buildScript' (sources d) None) /\
      snd (main' d) = snd (npmRun 2 buildScript' (sources d) None))
   \/
   ((forall t0 t1, ~ builds_ok (sources d) c2 c3 t0 t1) /\
    world (fst (main' d)) = world d /\
    snd (main' d) = false)).
Proof.
  intros H1 H2 H3. unfold main.
  rewrite (captureOriginals_Some _ c1 c2 c3 H1 H2 H3).
  unfold run_finally.
  pose proof (mainBody_triple (sources d) (world d) c2 c3 H2 H3
                (dirs d !! Paths.vapor) (dirs d !! Paths.classic)
                (dirs d !! Paths.dist)
                {| disk := d; classicApplied := false; builds := 0 |}) as Hb.
  specialize (Hb ltac:(repeat split)).
  destruct (mainBody' {| disk := d; classicApplied := false; builds := 0 |})
    as [st1 [[]|]].
  - destruct Hb as (t0 & t1 & w' & Hok & Hst & Hw').
    pose proof (mainCleanup_after (sources d) c1 c2 c3 H1 H2 H3
                  _ _ _ _ _ _ _ st1 Hst
                  ltac:(right; repeat split)) as Hc.
    cbv zeta in Hc. destruct Hc as (Hs & Hw & Hv & Hc & _ & Ht).
    destruct (Ht eq_refl) as [Hr Hd]. clear Ht.
    destruct (mainCleanup' _ st1) as [st2 r]. simpl in *.
    split.
    { destruct r; exact Hs. }
    left. exists t0, t1, w'. split; [exact Hok |]. split; [exact Hw' |].
    destruct (snd (npmRun 2 buildScript' (sources d) None)); subst r;
      repeat split; assumption.
  - destruct Hb as (Hnot & n & v & c & dst & [Hst | Hst]).
    + pose proof (mainCleanup_after (sources d) c1 c2 c3 H1 H2 H3
                    _ _ _ _ _ _ _ st1 Hst ltac:(left; repeat split)) as Hc.
      cbv zeta in Hc. destruct Hc as (Hs & Hw & _).
      destruct (mainCleanup' _ st1) as [st2 r]. simpl in *.
      split; [destruct r; exact Hs |].
      right. split; [exact Hnot |]. destruct r; split; auto.
    + pose proof (mainCleanup_after (sources d) c1 c2 c3 H1 H2 H3
                    _ _ _ _ _ _ _ st1 Hst ltac:(right; repeat split)) as Hc.
      cbv zeta in Hc. destruct Hc as (Hs & Hw & _).
      destruct (mainCleanup' _ st1) as [st2 r]. simpl in *.
      split; [destruct r; exact Hs |].
      right. split; [exact Hnot |]. destruct r; split; auto.
Qed.




(** X7: in inspect mode the whole run, whatever its builds do, leaves the
    history file as it was and writes no history event. *)
Theorem main_inspect_keeps_history (d : Disk) :
  isInspectMode = true ->
  historyFile (world (fst (main' d))) = historyFile (world d) /\
  forall entry,
    HistoryWritten entry ∈ events (world (fst (main' d))) ->
    HistoryWritten entry ∈ events (world d).
Proof.
  intros Hmode.
  destruct (captureOriginals (sources d)) as [originals|] eqn:Ho.
  2:{ unfold main. rewrite Ho. split; [reflexivity | auto]. }
  apply captureOriginals_Some_inv in Ho as (c1 & c2 & c3 & H1 & H2 & H3 & _).
  destruct (main_outcome d c1 c2 c3 H1 H2 H3) as [_ [Hok | Hfail]].
  - destruct Hok as (t0 & t1 & w' & _ & Hw' & Hw & _).
    rewrite Hmode in Hw'.
    apply writeReport_inspect_world in Hw' as [Hh [md Hev]].
    rewrite Hw. split; [exact Hh |].
    intros entry Hin. rewrite Hev in Hin.
    apply elem_of_app in Hin as [Hin | Hin]; [exact Hin |].
    apply list_elem_of_singleton in Hin. discriminate.
  - destruct Hfail as (_ & Hw & _). rewrite Hw. split; [reflexivity | auto].
Qed.

(** X8: a benchmark run that ends without an error has stored exactly one
    entry for the current vue version; the entry holds the four sizes of
    the two artifacts the run leaves on disk and their differences, and the
    stored collection is sorted. *)
Theorem main_benchmark_success_stores_entry (d : Disk) :
  isInspectMode = false ->
  snd (main' d) = true ->
  exists t0 t1,
    dirs (fst (main' d)) !! Paths.vapor = Some t0 /\
    dirs (fst (main' d)) !! Paths.classic = Some t1 /\
    filter (fun b => vueVersion b = getVueVersion (world d))
      (readHistory (world (fst (main' d))))
    = [ {| timestamp := now;
           mode := benchmark;
           vapor := {| raw := directorySize t0;
                       gzipped := gzipDirectorySize gzipLength t0 |};
           classic := {| raw := directorySize t1;
                         gzipped := gzipDirectorySize gzipLength t1 |};
           delta := {| raw := directorySize t0 - directorySize t1;
                       gzipped := gzipDirectorySize gzipLength t0
                                  - gzipDirectorySize gzipLength t1 |};
           vueVersion := getVueVersion (world d) |} ] /\
    StronglySorted version_le (readHistory (world (fst (main' d)))).
Proof.
  intros Hmode Hok.
  destruct (captureOriginals (sources d)) as [originals|] eqn:Ho.
  2:{ unfold main in Hok. rewrite Ho in Hok. discriminate. }
  apply captureOriginals_Some_inv in Ho as (c1 & c2 & c3 & H1 & H2 & H3 & _).
  destruct (main_outcome d c1 c2 c3 H1 H2 H3) as [_ [Hdone | Hfail]].
  2:{ destruct Hfail as (_ & _ & Hr). congruence. }
  destruct Hdone as (t0 & t1 & w' & _ & Hw' & Hw & Hv & Hc & _).
  rewrite Hmode in Hw'.
  apply writeReport_benchmark_world in Hw' as [Hh _].
  exists t0, t1. split; [exact Hv |]. split; [exact Hc |].
  assert (Hread : readHistory (world (fst (main' d)))
                  = readHistory
                      (writeHistory
                         (reportEntry false now (directorySize t0)
                            (directorySize t1)
                            (gzipDirectorySize gzipLength t0)
                            (gzipDirectorySize gzipLength t1) (world d))
                         (world d))).
  { unfold readHistory at 1 2. now rewrite Hw, Hh. }
  rewrite Hread. split.
  - apply Permutation_singleton_r. rewrite writeHistory_version.
    now rewrite decide_True by reflexivity.
  - apply writeHistory_sorted.
Qed.

End MainFacts.

(* ------------------------------------------------------------------ *)
(** ** The backfill script *)
(* ------------------------------------------------------------------ *)

Section BackfillFacts.

Context {Machine : Type}
  (npmInfoVersions : Machine -> option (list string))
  (worldOf : Machine -> World)
  (npmInstall : string -> Machine -> Machine * bool)
  (npmRunBenchmark : Machine -> Machine * bool).

Local Abbreviation benchmarkEach' :=
  (benchmarkEach Machine npmInstall npmRunBenchmark).
Local Abbreviation installVersion' := (installVersion Machine npmInstall).
Local Abbreviation runBenchmark' := (runBenchmark Machine npmRunBenchmark).
Local Abbreviation backfillMain' :=
  (backfillMain Machine npmInfoVersions worldOf npmInstall npmRunBenchmark).
Local Abbreviation getExistingVersions' :=
  (getExistingVersions Machine worldOf).

Lemma StronglySorted_filter {A} (R : A -> A -> Prop) (p : A -> bool) l :
  StronglySorted R l -> StronglySorted R (List.filter p l).
Proof.
  induction 1 as [|x l Hs IH Hall]; simpl; [constructor |].
  destruct (p x); [| exact IH].
  constructor; [exact IH |].
  rewrite List.Forall_forall in *. intros y Hy.
  apply List.filter_In in Hy as [Hy _]. now apply Hall.
Qed.

Lemma StronglySorted_last_max {A} (R : A -> A -> Prop) l x :
  (forall a, R a a) -> StronglySorted R l -> last l = Some x ->
  forall y, y ∈ l -> R y x.
Proof.
  intros Hrefl Hs. revert x.
  induction Hs as [|a l Hs IH Hall]; intros x Hlast y Hy.
  - inversion Hy.
  - destruct l as [|b l].
    + cbn in Hlast. injection Hlast as <-.
      apply list_elem_of_singleton in Hy as ->. apply Hrefl.
    + change (last (a :: b :: l)) with (last (b :: l)) in Hlast.
      apply elem_of_cons in Hy as [-> | Hy]; [| now apply IH].
      rewrite List.Forall_forall in Hall. apply Hall.
      apply list_elem_of_In. apply last_Some in Hlast as [l' ->].
      apply elem_of_app. right. now left.
Qed.

Lemma getAlphaVersions_elem registry v :
  v ∈ sort compareVersions (List.filter isAlpha registry)
  <-> v ∈ registry /\ isAlpha v = true.
Proof.
  rewrite (sort_perm compareVersions (List.filter isAlpha registry)).
  rewrite !list_elem_of_In. apply List.filter_In.
Qed.

Lemma missingFrom_elem allVersions existing v :
  v ∈ missingFrom allVersions existing <-> v ∈ allVersions /\ v ∉ existing.
Proof.
  unfold missingFrom. rewrite !list_elem_of_In, List.filter_In.
  rewrite negb_true_iff, bool_decide_eq_false. reflexivity.
Qed.

Lemma getExistingVersions_elem m v :
  v ∈ getExistingVersions' m <-> v ∈ vueVersion <$> readHistory (worldOf m).
Proof. unfold getExistingVersions. apply elem_of_list_to_set. Qed.

Lemma benchmarkEach_effect missingVersions :
  forall results b,
    match benchmarkEach' missingVersions results b with
    | (b', Some results') =>
        commands b'
        = commands b
          ++ concat (map (fun v => [NpmInstall v; NpmRunBenchmark])
                       missingVersions) /\
        exists flags,
          length flags = length missingVersions /\
          results' = results ++ zip missingVersions flags
    | (b', None) =>
        exists done v rest,
          missingVersions = done ++ v :: rest /\
          commands b'
          = commands b
            ++ concat (map (fun v => [NpmInstall v; NpmRunBenchmark]) done)
            ++ [NpmInstall v]
    end.
Proof.
  induction missingVersions as [|version rest IH]; intros results b.
  - cbn. rewrite !app_nil_r. split; [reflexivity |].
    now exists [].
  - cbn [benchmarkEach]. unfold installVersion at 1.
    destruct (npmInstall version (machine b)) as [m1 [|]].
    2:{ exists [], version, rest. now split. }
    unfold runBenchmark at 1. cbn [machine commands].
    destruct (npmRunBenchmark m1) as [m2 success].
    specialize (IH (results ++ [(version, success)])
                  {| machine := m2;
                     commands := (commands b ++ [NpmInstall version])
                                 ++ [NpmRunBenchmark] |}).
    destruct (benchmarkEach' rest _ _) as [b' [results'|]].
    + destruct IH as [Hc (flags & Hlen & ->)]. cbn [commands] in Hc.
      split.
      * rewrite Hc. cbn [map concat]. now rewrite <- !app_assoc.
      * exists (success :: flags). split; [cbn; now rewrite Hlen |].
        cbn [zip zip_with]. now rewrite <- app_assoc.
    + destruct IH as (done & v & rest' & -> & Hc). cbn [commands] in Hc.
      exists (version :: done), v, rest'. split; [reflexivity |].
      rewrite Hc. cbn [map concat]. now rewrite <- !app_assoc.
Qed.

Lemma fst_zip_flags {A B} (l : list A) (k : list B) :
  length k = length l -> fst <$> zip l k = l.
Proof. intros H. apply fst_zip. lia. Qed.

Lemma last_is_Some {A} (l : list A) : l <> [] -> is_Some (last l).
Proof.
  destruct l as [|x l] using rev_ind; [congruence |].
  intros _. rewrite last_snoc. now eexists.
Qed.


(** X10: when every 3.6.0-alpha version of the registry already has an entry
    in the history file, the backfill returns without running a command:
    nothing is installed, also not the latest version. *)
Theorem backfill_nothing_missing (m : Machine) (registry : list string) :
  npmInfoVersions m = Some registry ->
  (forall v, v ∈ registry -> isAlpha v = true ->
             v ∈ vueVersion <$> readHistory (worldOf m)) ->
  backfillMain' m = ({| machine := m; commands := [] |}, Some []).
Proof.
  intros Hinfo Hall.
  unfold backfillMain, getAlphaVersionsFromNpm. rewrite Hinfo.
  cbn [mbind option_bind].
  destruct (missingFrom _ _) as [|v vs] eqn:Em; [reflexivity |].
  exfalso.
  assert (Hv : v ∈ missingFrom
                 (sort compareVersions (List.filter isAlpha registry))
                 (getExistingVersions' m)) by (rewrite Em; now left).
  apply missingFrom_elem in Hv as [Hv Hn].
  apply getAlphaVersions_elem in Hv as [Hr Ha].
  apply Hn, getExistingVersions_elem. now apply Hall.
Qed.


End BackfillFacts.

(* ------------------------------------------------------------------ *)
(** ** More on versions, the history store and the report *)
(* ------------------------------------------------------------------ *)

Section InsertFacts.

Context {A : Type} (cmp : A -> A -> Z).

Hypothesis cmp_trans : forall x y z, cmp x y <= 0 -> cmp y z <= 0 -> cmp x z <= 0.

Lemma sort_insert_least x l :
  Forall (fun y => cmp x y <= 0) l -> sort_insert cmp x l = x :: l.
Proof.
  destruct 1 as [|y l Hy _]; [reflexivity |]. cbn beta in Hy.
  cbn [sort_insert]. destruct (Z.leb_spec (cmp x y) 0); [reflexivity | lia].
Qed.

(** Sorting a sorted array with one more element pushed: the element goes
    after everything that does not compare above it. *)
Lemma sort_snoc_sorted l e :
  StronglySorted (fun a b => cmp a b <= 0) l ->
  exists l1 l2,
    sort cmp (l ++ [e]) = l1 ++ e :: l2 /\ l = l1 ++ l2 /\
    Forall (fun x => cmp x e <= 0) l1 /\
    Forall (fun x => ~ cmp x e <= 0) l2.
Proof.
  induction 1 as [|x l Hs IH Hx].
  - exists [], []. repeat split; constructor.
  - destruct IH as (l1 & l2 & Hsort & -> & H1 & H2).
    change (sort cmp ((x :: l1 ++ l2) ++ [e]))
      with (sort_insert cmp x (sort cmp ((l1 ++ l2) ++ [e]))).
    rewrite Hsort.
    destruct l1 as [|y l1].
    + cbn [app sort_insert]. cbn [app] in Hx.
      destruct (Z.leb_spec (cmp x e) 0) as [Hxe | Hxe].
      * exists [x], l2. repeat split; [now constructor | exact H2].
      * exists [], (x :: l2). rewrite (sort_insert_least x l2 Hx).
        repeat split; [constructor |]. constructor; [lia | exact H2].
    + cbn [app sort_insert]. cbn [app] in Hx.
      pose proof (Forall_inv Hx) as Hxy. cbn beta in Hxy.
      destruct (Z.leb_spec (cmp x y) 0); [| lia].
      exists (x :: y :: l1), l2. repeat split; [| exact H2].
      constructor; [| exact H1].
      apply cmp_trans with y; [exact Hxy |].
      pose proof (Forall_inv H1) as Hye. exact Hye.
Qed.

End InsertFacts.

Lemma StronglySorted_list_filter {A} (R : A -> A -> Prop) (P : A -> Prop)
    `{!forall x, Decision (P x)} (l : list A) :
  StronglySorted R l -> StronglySorted R (filter P l).
Proof.
  induction 1 as [|x l Hs IH Hall]; [constructor |].
  destruct (decide (P x)) as [Hp | Hp].
  - rewrite filter_cons_True by exact Hp. constructor; [exact IH |].
    apply Forall_forall. intros y Hy.
    apply list_elem_of_filter in Hy as [_ Hy].
    rewrite Forall_forall in Hall. now apply Hall.
  - now rewrite filter_cons_False by exact Hp.
Qed.

Lemma strip_range_marks_clean s :
  Str.all no_range_mark (strip_range_marks s) = true.
Proof.
  induction s as [|c s IH]; [reflexivity |]. cbn [strip_range_marks].
  destruct (Ascii.eqb c "^" || Ascii.eqb c "~") eqn:E; [exact IH |].
  cbn [Str.all]. unfold no_range_mark at 1. now rewrite E, IH.
Qed.

Lemma strip_range_marks_id s :
  Str.all no_range_mark s = true -> strip_range_marks s = s.
Proof.
  induction s as [|c s IH]; [reflexivity |]. cbn [Str.all strip_range_marks].
  intros H. apply andb_prop in H as [Hc Hs]. unfold no_range_mark in Hc.
  apply negb_true_iff in Hc. now rewrite Hc, IH.
Qed.

Lemma strip_range_marks_app a b :
  strip_range_marks (a +:+ b) = strip_range_marks a +:+ strip_range_marks b.
Proof.
  induction a as [|c a IH]; [reflexivity |].
  cbn [String.append strip_range_marks].
  destruct (Ascii.eqb c "^" || Ascii.eqb c "~"); [exact IH |].
  cbn [String.append]. now rewrite IH.
Qed.

Lemma strip_range_marks_marks s :
  Str.all (fun c => negb (no_range_mark c)) s = true ->
  strip_range_marks s = EmptyString.
Proof.
  induction s as [|c s IH]; [reflexivity |]. cbn [Str.all strip_range_marks].
  intros H. apply andb_prop in H as [Hc Hs]. unfold no_range_mark in Hc.
  rewrite negb_involutive in Hc. now rewrite Hc, IH.
Qed.

Section MoreStatements.

Context (toFixed : Z -> Z -> nat -> string)
        (numToLocaleString : Z -> string)
        (dateToLocaleString dateToLocaleDateString : string -> string).

(** X12: a version string outside the pattern is ordered exactly like
    0.0.0, on either side of the comparison: against a string of the pattern
    the sign is the order of 0.0.0 and the version it writes. *)
Theorem malformed_version_compares_as_zero (a b : string) :
  ~ matches_pattern a ->
  compareVersions a b = compareVersions "0.0.0" b /\
  compareVersions b a = compareVersions b "0.0.0" /\
  forall v, writes b v ->
            (compareVersions a b ?= 0)
            = version_order_spec (mkSemVer 0 0 0 None) v.
Proof.
  intros Ha. pose proof (parseVersion_sentinel _ Ha) as Ea.
  assert (E0 : parseVersion "0.0.0" = sentinel) by reflexivity.
  assert (E1 : compareVersions a b = compareVersions "0.0.0" b).
  { unfold compareVersions. now rewrite Ea, E0. }
  split; [exact E1 |]. split.
  - unfold compareVersions. now rewrite Ea, E0.
  - intros v Hv. rewrite E1. apply compareVersions_spec; [| exact Hv].
    exact (writes_stable "0" "0" "0"
             digit_string_0 digit_string_0 digit_string_0).
Qed.

(** X13: the version recorded for a run is the vue dependency of
    package.json with every caret and tilde removed, so a range such as
    ^v or ~v is recorded as v; when the dependency cannot be read it is
    the word unknown. *)
Theorem getVueVersion_strips_range_marks (w : World) :
  match vueDependency w with
  | None => getVueVersion w = "unknown"
  | Some dep =>
      Str.all no_range_mark (getVueVersion w) = true /\
      forall marks v,
        dep = marks +:+ v ->
        Str.all (fun c => negb (no_range_mark c)) marks = true ->
        Str.all no_range_mark v = true ->
        getVueVersion w = v
  end.
Proof.
  unfold getVueVersion. destruct (vueDependency w) as [dep|]; [| reflexivity].
  split; [apply strip_range_marks_clean |].
  intros marks v -> Hm Hv.
  now rewrite strip_range_marks_app, strip_range_marks_marks,
    strip_range_marks_id.
Qed.

(** X14: on a sorted store a write keeps every entry of another version,
    in the order they had, and puts the new entry after the entries that do
    not compare above it and before those that do. *)
Theorem writeHistory_inserts_in_order (entry : BenchmarkEntry) (w : World) :
  StronglySorted version_le (readHistory w) ->
  exists older newer,
    readHistory (writeHistory entry w) = older ++ entry :: newer /\
    older ++ newer
    = filter (fun b => vueVersion b <> vueVersion entry) (readHistory w) /\
    Forall (fun b => version_le b entry) older /\
    Forall (fun b => compareVersions (vueVersion entry) (vueVersion b) < 0)
      newer.
Proof.
  intros Hs. rewrite readHistory_writeHistory.
  destruct (sort_snoc_sorted
              (fun a b => compareVersions (vueVersion a) (vueVersion b))
              (fun x y z => compareVersions_le_trans _ _ _)
              (filter (fun b => vueVersion b <> vueVersion entry)
                 (readHistory w)) entry)
    as (older & newer & Hsort & Hl & H1 & H2).
  { now apply StronglySorted_list_filter. }
  exists older, newer. split; [exact Hsort |]. split; [now rewrite Hl |].
  split; [exact H1 |].
  eapply Forall_impl; [exact H2 |]. cbn beta. intros b Hb.
  rewrite (compareVersions_antisym (vueVersion b) (vueVersion entry)). lia.
Qed.


End MoreStatements.

Section TransformSteps.


End TransformSteps.

(* ------------------------------------------------------------------ *)
(** ** Runs on the sample data *)
(* ------------------------------------------------------------------ *)

Section MainEdge.

Context (toFixed : Z -> Z -> nat -> string)
        (numToLocaleString : Z -> string)
        (dateToLocaleString dateToLocaleDateString : string -> string)
        (gzipLength : string -> Z)
        (npmRun : nat -> string -> FS -> option Tree -> option Tree * bool)
        (isInspectMode : bool) (now : string).

(** X17: the originals are read before anything else: when a tracked file
    is missing the script ends with an error without a build, and sources,
    directories and report files are as they were. *)
Theorem main_stops_without_tracked_file (d : Disk) (f : string) :
  f ∈ trackedFiles -> sources d !! f = None ->
  main toFixed numToLocaleString dateToLocaleString dateToLocaleDateString
    gzipLength npmRun isInspectMode now d = (d, false).
Proof.
  intros Hf Hnone. unfold main.
  destruct (captureOriginals (sources d)) as [originals|] eqn:Ho;
    [| reflexivity].
  exfalso.
  apply captureOriginals_Some_inv in Ho as (c1 & c2 & c3 & H1 & H2 & H3 & _).
  unfold trackedFiles in Hf.
  repeat (apply elem_of_cons in Hf as [-> | Hf]; [congruence |]).
  inversion Hf.
Qed.

End MainEdge.

Lemma sample_gzip_bound data : sample_gzipLength data <= byteLength data.
Proof.
  unfold sample_gzipLength, byteLength.
  apply Z.div_le_upper_bound; lia.
Defined.



Lemma failing_npmRun_fails n script fs dist t :
  failing_npmRun n script fs dist <> (Some t, true).
Proof. discriminate. Defined.


Lemma main_inspect_keeps_history_witness :
  historyFile
    (world (fst (main sample_toFixed sample_numToString sample_dateToString
                   sample_dateToString sample_gzipLength sample_npmRun true
                   "2025-02-01T00:00:00.000Z" sample_disk)))
  = Some sample_history.
Proof.
  exact (proj1 (main_inspect_keeps_history sample_toFixed sample_numToString
                  sample_dateToString sample_dateToString sample_gzipLength
                  sample_npmRun true "2025-02-01T00:00:00.000Z" sample_disk
                  eq_refl)).
Defined.

Lemma sample_run_succeeds :
  snd (main sample_toFixed sample_numToString sample_dateToString
         sample_dateToString sample_gzipLength sample_npmRun false
         "2025-02-01T00:00:00.000Z" sample_disk) = true.
Proof. vm_compute. reflexivity. Defined.

Lemma main_benchmark_success_stores_entry_witness :
  exists t0 t1,
    dirs (fst (main sample_toFixed sample_numToString sample_dateToString
                 sample_dateToString sample_gzipLength sample_npmRun false
                 "2025-02-01T00:00:00.000Z" sample_disk))
      !! Paths.vapor = Some t0 /\
    dirs (fst (main sample_toFixed sample_numToString sample_dateToString
                 sample_dateToString sample_gzipLength sample_npmRun false
                 "2025-02-01T00:00:00.000Z" sample_disk))
      !! Paths.classic = Some t1.
Proof.
  destruct (main_benchmark_success_stores_entry sample_toFixed
              sample_numToString sample_dateToString sample_dateToString
              sample_gzipLength sample_npmRun false
              "2025-02-01T00:00:00.000Z" sample_disk eq_refl
              sample_run_succeeds)
    as (t0 & t1 & H0 & H1 & _).
  exists t0, t1. split; [exact H0 | exact H1].
Defined.

Lemma main_stops_without_tracked_file_witness :
  main sample_toFixed sample_numToString sample_dateToString
    sample_dateToString sample_gzipLength sample_npmRun false
    "2025-02-01T00:00:00.000Z"
    {| sources := ∅; dirs := ∅; world := world sample_disk |}
  = ({| sources := ∅; dirs := ∅; world := world sample_disk |}, false).
Proof.
  apply (main_stops_without_tracked_file sample_toFixed sample_numToString
           sample_dateToString sample_dateToString sample_gzipLength
           sample_npmRun false "2025-02-01T00:00:00.000Z"
           {| sources := ∅; dirs := ∅; world := world sample_disk |}
           "example/src/App.vue").
  - unfold trackedFiles. right. left.
  - reflexivity.
Defined.

Lemma sample_all_benchmarked (v : string) :
  v ∈ sample_registry_done -> isAlpha v = true ->
  v ∈ vueVersion <$> readHistory (world sample_disk).
Proof.
  unfold sample_registry_done. intros Hv Ha.
  repeat (apply elem_of_cons in Hv as [-> | Hv];
          [first [discriminate Ha | vm_compute; set_solver] |]).
  inversion Hv.
Defined.

Lemma backfill_nothing_missing_witness :
  backfillMain unit (fun _ => Some sample_registry_done)
    (fun _ => world sample_disk) (fun _ m => (m, true)) (fun m => (m, true)) tt
  = ({| machine := tt; commands := [] |}, Some []).
Proof.
  exact (backfill_nothing_missing (fun _ => Some sample_registry_done)
           (fun _ => world sample_disk) (fun _ m => (m, true))
           (fun m => (m, true)) tt sample_registry_done eq_refl
           sample_all_benchmarked).
Defined.

Lemma sample_something_missing :
  missingFrom (sort compareVersions (List.filter isAlpha sample_registry))
    (getExistingVersions unit (fun _ => world sample_disk) tt) <> [].
Proof. vm_compute. discriminate. Defined.


Lemma malformed_version_compares_as_zero_witness :
  compareVersions "unknown" "3.6.0" = compareVersions "0.0.0" "3.6.0".
Proof.
  exact (proj1 (malformed_version_compares_as_zero "unknown" "3.6.0"
                  unknown_outside_pattern)).
Defined.

Lemma sample_history_sorted :
  StronglySorted version_le (readHistory (world sample_disk)).
Proof.
  repeat constructor; unfold version_le; cbn [vueVersion sample_entry];
    vm_compute; discriminate.
Defined.

Lemma writeHistory_inserts_in_order_witness :
  exists older newer,
    readHistory (writeHistory (sample_entry "3.6.0-alpha.2" 20000)
                   (world sample_disk))
    = older ++ sample_entry "3.6.0-alpha.2" 20000 :: newer.
Proof.
  destruct (writeHistory_inserts_in_order
              (sample_entry "3.6.0-alpha.2" 20000) (world sample_disk)
              sample_history_sorted)
    as (older & newer & H & _).
  exists older, newer. exact H.
Defined.
